(** * CLAM: command-line argument matchers (clam.h)

    A shallow embedding of the matchers of [clam.h] and the properties of
    their results.

    - [clam_match_result_t] is [uintptr_t]: a [Z] with the wrap-around of
      unsigned arithmetic written out ([uintptr]).
    - A [const char *] is the buffer that starts at the pointer ([cptr]);
      [input + i] is [ptr_add], [input[i]] is [index].  The terminator is the
      character [NUL]; the C string a pointer denotes is the part of the
      buffer before its first [NUL] ([cstring], of length [strlen]).
    - A parameter that may be [NULL] is an [option cptr].
    - [main] of [example.c], the caller of the matchers, is embedded with
      its calls of [printf] as its output (module [Example]).
    - The loops are written with fuel, line by line from the source; a
      function that runs a loop returns [None] when the fuel runs out, and
      the theorems show that fuel beyond the length of the scanned strings
      always gives a result. *)

From Stdlib Require Import ZArith Lia Bool List Ascii String.
Import ListNotations.

Open Scope Z_scope.

Module Clam.

(** ** Machine integers *)

(** [UINTPTR_MAX] of <stdint.h>, for 64-bit pointers. *)
Definition UINTPTR_MAX : Z := 18446744073709551615.

(** Unsigned arithmetic of [uintptr_t] wraps modulo [UINTPTR_MAX + 1]. *)
Definition uintptr (z : Z) : Z := z mod (UINTPTR_MAX + 1).

Definition clam_match_result_t : Type := Z.

(** The [int] (0 or 1) a C comparison or logical operator yields. *)
Definition c_bool (b : bool) : Z := if b then 1 else 0.

(** A C condition holds when its value is not zero. *)
Definition truthy (z : Z) : bool := negb (z =? 0).

(** ** Characters and strings *)

Definition NUL : ascii := Ascii.zero.

(** The value of a character in comparisons.  Where [char] is signed the
    bytes above 127 are negative instead; every range tested by the library
    lies within 0..127, so both readings give the same answers. *)
Definition char_code (c : ascii) : Z := Z.of_N (N_of_ascii c).

(** A pointer into a character buffer: the characters from the pointer on.
    The end of the buffer reads as the terminator. *)
Definition cptr : Type := string.

(** [*p] *)
Definition deref (p : cptr) : ascii :=
  match p with
  | EmptyString => NUL
  | String c _ => c
  end.

Fixpoint ptr_add_nat (p : cptr) (n : nat) {struct n} : cptr :=
  match n with
  | O => p
  | S n' =>
      match p with
      | EmptyString => EmptyString
      | String _ p' => ptr_add_nat p' n'
      end
  end.

(** [p + i] *)
Definition ptr_add (p : cptr) (i : Z) : cptr := ptr_add_nat p (Z.to_nat i).

(** [p[i]] *)
Definition index (p : cptr) (i : Z) : ascii := deref (ptr_add p i).

(** The C string at [p]: the characters before the first terminator. *)
Fixpoint cstring (p : cptr) : list ascii :=
  match p with
  | EmptyString => []
  | String c p' => if Ascii.eqb c NUL then [] else c :: cstring p'
  end.

Definition strlen (p : cptr) : nat := List.length (cstring p).

(** [valid_read_string] of the source's contracts, with the source's axiom
    [strlen_less_or_equal_uintptr_max]: the length of a string fits
    [uintptr_t]. *)
Definition valid_read_string (p : cptr) : Prop :=
  Z.of_nat (strlen p) <= UINTPTR_MAX.

(** ** Results of functions that loop *)

Definition bind {A B : Type} (m : option A) (k : A -> option B) : option B :=
  match m with
  | Some a => k a
  | None => None
  end.

Notation "x <- m ;; k" := (bind m (fun x => k))
  (at level 61, m at next level, right associativity).

Definition ret {A : Type} (a : A) : option A := Some a.

(** ** Basic character matchers *)

(** [return input[0] == c;] *)
Definition clam_match_char (input : cptr) (c : ascii) : clam_match_result_t :=
  c_bool (Ascii.eqb (index input 0) c).

(** [return clam_match_char(input, 0);] *)
Definition clam_match_end (input : cptr) : clam_match_result_t :=
  clam_match_char input NUL.

(** The loop of [clam_match_anychar], on the state [(i, result)]:
<<
    while (!result && !clam_match_end(chars + i)) {
           result = clam_match_char(input, chars[i]);
           if (result) { break; }
           i++;
    }
>> *)
Fixpoint clam_match_anychar_loop (fuel : nat) (input chars : cptr)
    (i result : clam_match_result_t) : option clam_match_result_t :=
  match fuel with
  | O => None
  | S fuel' =>
      if negb (truthy result) && negb (truthy (clam_match_end (ptr_add chars i)))
      then
        let result := clam_match_char input (index chars i) in
        if truthy result then ret result
        else clam_match_anychar_loop fuel' input chars (uintptr (i + 1)) result
      else ret result
  end.

Definition clam_match_anychar (fuel : nat) (input : cptr) (chars : option cptr)
    : option clam_match_result_t :=
  if truthy (clam_match_end input) then ret 0
  else
    match chars with
    | None => ret 1
    | Some chars => clam_match_anychar_loop fuel input chars 0 0
    end.

(** ** String matchers *)

(** The loop of [clam_match_at_least_n_chars] and of [clam_match_chars] (the
    same text in both), on the state [i]:
<<
    while (!clam_match_end(input + i) && !clam_match_end(chars + i) &&
           clam_match_char(input + i, chars[i])) {
            i++;
    }
>> *)
Fixpoint clam_match_chars_loop (fuel : nat) (input chars : cptr)
    (i : clam_match_result_t) : option clam_match_result_t :=
  match fuel with
  | O => None
  | S fuel' =>
      if negb (truthy (clam_match_end (ptr_add input i)))
         && negb (truthy (clam_match_end (ptr_add chars i)))
         && truthy (clam_match_char (ptr_add input i) (index chars i))
      then clam_match_chars_loop fuel' input chars (uintptr (i + 1))
      else ret i
  end.

(** [return (i >= n) ? i : 0;] after the loop; [n] is a [size_t]. *)
Definition clam_match_at_least_n_chars (fuel : nat) (input : cptr) (n : Z)
    (chars : cptr) : option clam_match_result_t :=
  i <- clam_match_chars_loop fuel input chars 0 ;;
  ret (if n <=? i then i else 0).

(** [return clam_match_end(chars + i) ? i : 0;] after the loop. *)
Definition clam_match_chars (fuel : nat) (input chars : cptr)
    : option clam_match_result_t :=
  i <- clam_match_chars_loop fuel input chars 0 ;;
  ret (if truthy (clam_match_end (ptr_add chars i)) then i else 0).

Definition clam_match_chars_to_end (fuel : nat) (input chars : cptr)
    : option clam_match_result_t :=
  i <- clam_match_chars fuel input chars ;;
  if negb (truthy i) then ret 0
  else ret (if truthy (clam_match_end (ptr_add input i)) then i else 0).

(** [return input[0] >= '0' && input[0] <= '9';] *)
Definition clam_match_numeric10_char (input : cptr) : clam_match_result_t :=
  c_bool ((char_code "0" <=? char_code (index input 0))
          && (char_code (index input 0) <=? char_code "9")).

(** [while (clam_match_numeric10_char(input + i)) { i++; }] *)
Fixpoint clam_match_unsigned_integer10_loop (fuel : nat) (input : cptr)
    (i : clam_match_result_t) : option clam_match_result_t :=
  match fuel with
  | O => None
  | S fuel' =>
      if truthy (clam_match_numeric10_char (ptr_add input i))
      then clam_match_unsigned_integer10_loop fuel' input (uintptr (i + 1))
      else ret i
  end.

Definition clam_match_unsigned_integer10 (fuel : nat) (input : cptr)
    : option clam_match_result_t :=
  clam_match_unsigned_integer10_loop fuel input 0.

(** [const char clam__signs[3] = "-+";] *)
Definition clam__signs : cptr := "-+"%string.

Definition clam_match_signed_integer10 (fuel : nat) (input : cptr)
    : option clam_match_result_t :=
  sign <- clam_match_anychar fuel input (Some clam__signs) ;;
  number <- clam_match_unsigned_integer10 fuel (ptr_add input sign) ;;
  ret (if truthy number then uintptr (sign + number) else 0).

Definition clam_match_numeric16_char (input : cptr) : clam_match_result_t :=
  c_bool ((char_code "0" <=? char_code (index input 0))
          && (char_code (index input 0) <=? char_code "9")
          || (char_code "A" <=? char_code (index input 0))
             && (char_code (index input 0) <=? char_code "F")
          || (char_code "a" <=? char_code (index input 0))
             && (char_code (index input 0) <=? char_code "f")).

Definition clam_match_uppercase_char (input : cptr) : clam_match_result_t :=
  c_bool ((char_code "A" <=? char_code (index input 0))
          && (char_code (index input 0) <=? char_code "Z")).

Definition clam_match_lowercase_char (input : cptr) : clam_match_result_t :=
  c_bool ((char_code "a" <=? char_code (index input 0))
          && (char_code (index input 0) <=? char_code "z")).

Definition clam_match_alpha_char (input : cptr) : clam_match_result_t :=
  c_bool (truthy (clam_match_lowercase_char input)
          || truthy (clam_match_uppercase_char input)).

Definition clam_match_alphanumeric_char (input : cptr) : clam_match_result_t :=
  c_bool (truthy (clam_match_alpha_char input)
          || truthy (clam_match_numeric10_char input)).

(** ** POSIX matchers *)

(** [return clam_match_char(input, '-') &&
            clam_match_alphanumeric_char(input + 1) &&
            clam_match_anychar(input + 1, allowed_options) ? 2 : 0;]
    The operands of [&&] are evaluated left to right, up to the first that
    is zero. *)
Definition clam_match_posix_option (fuel : nat) (input : cptr)
    (allowed_options : option cptr) : option clam_match_result_t :=
  if truthy (clam_match_char input "-") then
    if truthy (clam_match_alphanumeric_char (ptr_add input 1)) then
      r <- clam_match_anychar fuel (ptr_add input 1) allowed_options ;;
      ret (if truthy r then 2 else 0)
    else ret 0
  else ret 0.

Definition clam_match_posix_long_option (fuel : nat) (input option : cptr)
    : Datatypes.option clam_match_result_t :=
  let dash := clam_match_char input "-" in
  if dash =? 0 then ret 0
  else
    opt <- clam_match_chars fuel (ptr_add input dash) option ;;
    ret (if truthy opt then uintptr (dash + opt) else 0).

(** The loop of [clam_match_posix_flags] with the [return] that follows it;
    [fuel] bounds the iterations of this loop and [callee] is the fuel
    handed to [clam_match_anychar]:
<<
    while (!clam_match_end(input + i)) {
            if (!(clam_match_alphanumeric_char(input + i) &&
                  clam_match_anychar(input + i, allowed_options))) {
                    return 0;
            }
            i++;
    }
    return i > 1 ? i : 0;
>> *)
Fixpoint clam_match_posix_flags_loop (fuel callee : nat) (input : cptr)
    (allowed_options : option cptr) (i : clam_match_result_t)
    : option clam_match_result_t :=
  match fuel with
  | O => None
  | S fuel' =>
      if negb (truthy (clam_match_end (ptr_add input i))) then
        if truthy (clam_match_alphanumeric_char (ptr_add input i)) then
          r <- clam_match_anychar callee (ptr_add input i) allowed_options ;;
          if truthy r
          then clam_match_posix_flags_loop fuel' callee input allowed_options
                 (uintptr (i + 1))
          else ret 0
        else ret 0
      else ret (if 1 <? i then i else 0)
  end.

Definition clam_match_posix_flags (fuel : nat) (input : cptr)
    (allowed_options : option cptr) : option clam_match_result_t :=
  let i := clam_match_char input "-" in
  if negb (truthy i) then ret 0
  else clam_match_posix_flags_loop fuel fuel input allowed_options i.

(** [const char clam__dashes[3] = "--";] *)
Definition clam__dashes : cptr := "--"%string.

Definition clam_match_posix_terminate_options (fuel : nat) (input : cptr)
    : option clam_match_result_t :=
  clam_match_chars_to_end fuel input clam__dashes.

(** ** Windows matchers *)

Definition clam_match_windows_switch (fuel : nat) (input : cptr)
    (allowed_switches : option cptr) : option clam_match_result_t :=
  if truthy (clam_match_char input "/") then
    if truthy (clam_match_alphanumeric_char (ptr_add input 1)) then
      r <- clam_match_anychar fuel (ptr_add input 1) allowed_switches ;;
      ret (if truthy r then 2 else 0)
    else ret 0
  else ret 0.

Definition clam_match_windows_long_switch (fuel : nat) (input switch_s : cptr)
    : option clam_match_result_t :=
  let slash := clam_match_char input "/" in
  if slash =? 0 then ret 0
  else
    swtch <- clam_match_chars fuel (ptr_add input slash) switch_s ;;
    ret (if truthy swtch then uintptr (slash + swtch) else 0).

(** ** The matchers as one family *)

(** A matcher of the library applied to its parameters; what is left to
    supply is the input. *)
Inductive matcher : Type :=
  | match_char (c : ascii)
  | match_end
  | match_anychar (chars : Datatypes.option cptr)
  | match_at_least_n_chars (n : Z) (chars : cptr)
  | match_chars (chars : cptr)
  | match_chars_to_end (chars : cptr)
  | match_numeric10_char
  | match_unsigned_integer10
  | match_signed_integer10
  | match_numeric16_char
  | match_uppercase_char
  | match_lowercase_char
  | match_alpha_char
  | match_alphanumeric_char
  | match_posix_option (allowed_options : Datatypes.option cptr)
  | match_posix_long_option (option : cptr)
  | match_posix_flags (allowed_options : Datatypes.option cptr)
  | match_posix_terminate_options
  | match_windows_switch (allowed_switches : Datatypes.option cptr)
  | match_windows_long_switch (switch_s : cptr).

Definition run (fuel : nat) (m : matcher) (input : cptr)
    : Datatypes.option clam_match_result_t :=
  match m with
  | match_char c => ret (clam_match_char input c)
  | match_end => ret (clam_match_end input)
  | match_anychar chars => clam_match_anychar fuel input chars
  | match_at_least_n_chars n chars =>
      clam_match_at_least_n_chars fuel input n chars
  | match_chars chars => clam_match_chars fuel input chars
  | match_chars_to_end chars => clam_match_chars_to_end fuel input chars
  | match_numeric10_char => ret (clam_match_numeric10_char input)
  | match_unsigned_integer10 => clam_match_unsigned_integer10 fuel input
  | match_signed_integer10 => clam_match_signed_integer10 fuel input
  | match_numeric16_char => ret (clam_match_numeric16_char input)
  | match_uppercase_char => ret (clam_match_uppercase_char input)
  | match_lowercase_char => ret (clam_match_lowercase_char input)
  | match_alpha_char => ret (clam_match_alpha_char input)
  | match_alphanumeric_char => ret (clam_match_alphanumeric_char input)
  | match_posix_option allowed => clam_match_posix_option fuel input allowed
  | match_posix_long_option option =>
      clam_match_posix_long_option fuel input option
  | match_posix_flags allowed => clam_match_posix_flags fuel input allowed
  | match_posix_terminate_options =>
      clam_match_posix_terminate_options fuel input
  | match_windows_switch allowed => clam_match_windows_switch fuel input allowed
  | match_windows_long_switch switch_s =>
      clam_match_windows_long_switch fuel input switch_s
  end.

(** The contract of a parameter that may be [NULL]:
    [p == \null || valid_read_string(p)]. *)
Definition valid_read_string_or_null (p : Datatypes.option cptr) : Prop :=
  match p with
  | None => True
  | Some chars => valid_read_string chars
  end.

(** The [requires] clauses of a matcher on its parameters. *)
Definition requires (m : matcher) : Prop :=
  match m with
  | match_anychar chars => valid_read_string_or_null chars
  | match_at_least_n_chars n chars =>
      valid_read_string chars /\ 0 <= n <= UINTPTR_MAX
  | match_chars chars => valid_read_string chars
  | match_chars_to_end chars => valid_read_string chars
  | match_posix_option allowed => valid_read_string_or_null allowed
  | match_posix_long_option option => valid_read_string option
  | match_posix_flags allowed => valid_read_string_or_null allowed
  | match_windows_switch allowed => valid_read_string_or_null allowed
  | match_windows_long_switch switch_s => valid_read_string switch_s
  | _ => True
  end.

(** Fuel that covers a scan of the string at [p]. *)
Definition covers (fuel : nat) (p : cptr) : Prop := (strlen p < fuel)%nat.

Definition covers_or_null (fuel : nat) (p : Datatypes.option cptr) : Prop :=
  match p with
  | None => True
  | Some chars => covers fuel chars
  end.

(** Fuel that covers the scans of a matcher's parameters. *)
Definition covers_params (fuel : nat) (m : matcher) : Prop :=
  match m with
  | match_anychar chars => covers_or_null fuel chars
  | match_posix_option allowed => covers_or_null fuel allowed
  | match_posix_flags allowed => covers_or_null fuel allowed
  | match_windows_switch allowed => covers_or_null fuel allowed
  | match_signed_integer10 => covers fuel clam__signs
  | _ => True
  end.

End Clam.

(** * Specification-side vocabulary

    The words of the specification, on the C string of a pointer. *)
Module Spec.
Import Clam.

(** The number of equal leading characters of two strings. *)
Fixpoint common_prefix_len (a b : list ascii) : nat :=
  match a, b with
  | x :: a', y :: b' =>
      if Ascii.eqb x y then S (common_prefix_len a' b') else O
  | _, _ => O
  end.

(** [a] is a prefix of [b]. *)
Fixpoint is_prefix (a b : list ascii) : bool :=
  match a, b with
  | [], _ => true
  | x :: a', y :: b' => Ascii.eqb x y && is_prefix a' b'
  | _ :: _, [] => false
  end.

Definition is_digit (c : ascii) : bool :=
  (char_code "0" <=? char_code c) && (char_code c <=? char_code "9").

Definition is_upper (c : ascii) : bool :=
  (char_code "A" <=? char_code c) && (char_code c <=? char_code "Z").

Definition is_lower (c : ascii) : bool :=
  (char_code "a" <=? char_code c) && (char_code c <=? char_code "z").

Definition is_alphanumeric (c : ascii) : bool :=
  is_lower c || is_upper c || is_digit c.

(** The length of the maximal leading run of base-10 digits. *)
Fixpoint digit_run (l : list ascii) : nat :=
  match l with
  | c :: l' => if is_digit c then S (digit_run l') else O
  | [] => O
  end.

(** [c] is one of the characters of the set [chars]. *)
Definition in_set (c : ascii) (chars : cptr) : bool :=
  existsb (Ascii.eqb c) (cstring chars).

(** [c] is accepted by an allow-set: any character when the set is the
    [NULL] wildcard, a member of the set otherwise. *)
Definition accepted (allowed : Datatypes.option cptr) (c : ascii) : bool :=
  match allowed with
  | None => true
  | Some chars => in_set c chars
  end.

(** A flag character: alphanumeric and accepted by the allow-set. *)
Definition is_flag (allowed : Datatypes.option cptr) (c : ascii) : bool :=
  is_alphanumeric c && accepted allowed c.

(** The length of the optional sign: 1 when the string starts with ['+'] or
    ['-'], else 0. *)
Definition sign_length (l : list ascii) : nat :=
  match l with
  | c :: _ => if Ascii.eqb c "+" || Ascii.eqb c "-" then 1%nat else O
  | [] => O
  end.

End Spec.

(** * The example driver (example.c)

    [main] of [example.c]: the loop over [argv] that recognises the help,
    link and [/f] options with the matchers.  A call of [printf] is recorded
    with its format and its arguments; the state of the loop is the index
    [a] and the calls made so far. *)
Module Example.
Import Clam.

(** An argument of a [printf] call: a string ([%s]) or a number ([%d]). *)
Inductive printf_arg : Type :=
  | arg_string (s : cptr)
  | arg_number (n : Z).

(** A call [printf(format, args...)]. *)
Record printf_call : Type := Printf {
  format : string;
  args : list printf_arg
}.

(** The new-line character of the format strings. *)
Definition nl : string := String (ascii_of_nat 10) EmptyString.

(** The four calls that print the usage. *)
Definition usage : list printf_call :=
  [ Printf ("Usage: example [option]" ++ nl)%string [];
    Printf ("  -h | --help This help information" ++ nl)%string [];
    Printf ("  -lname | -l name | --link name | --link=name | -link name | --link=name" ++ nl)%string [];
    Printf ("  /f [value]" ++ nl)%string [] ].

Definition invalid_trailer (trailer : cptr) (i : Z) (arg : cptr)
    : printf_call :=
  Printf ("invalid trailer %s at %d in %s" ++ nl)%string
    [arg_string trailer; arg_number i; arg_string arg].

Definition link_requires_argument : printf_call :=
  Printf ("link requires an argument" ++ nl)%string [].

Definition linking_with (arg : cptr) : printf_call :=
  Printf ("linking with %s" ++ nl)%string [arg_string arg].

Definition doing_something_with (arg : cptr) : printf_call :=
  Printf ("doing something with with %s" ++ nl)%string [arg_string arg].

Definition using_a_default : printf_call :=
  Printf "using a default with /f"%string [].

(** [argv[a]].  [argv[argc]] is the null pointer, which [main] assigns to
    [arg] but never reads through; it is modelled as the empty buffer. *)
Definition argv_at (argv : list cptr) (a : Z) : cptr :=
  nth (Z.to_nat a) argv EmptyString.

(** The [for] loop of [main] from index [a], with the [return 0] that ends
    [main] when the loop is left.  [fuel] bounds the iterations and [callee]
    is the fuel handed to the matchers.  The result is the exit status and
    the calls of [printf].
<<
    for (int a = 0; a < argc; a++) {
        const char *arg = argv[a];
        clam_match_result_t i = 0;
        if ((i = clam_match_posix_option(arg, "h")) ||
            (i = clam_match_posix_long_option(arg, "-help"))) {
                printf(...usage...);
                return 0;
        }
        bool longopt;
        if ((longopt = true, i = clam_match_posix_long_option(arg, "link")) ||
            (longopt = true, i = clam_match_posix_long_option(arg, "-link")) ||
            (longopt = false, i = clam_match_posix_option(arg, "l"))) {
                clam_match_result_t eq = 0;
                if (longopt && !clam_match_end(arg + i) &&
                    !clam_match_char(arg + i, '=')) {
                        printf("invalid trailer %s at %d in %s\n",
                               arg + i, i, arg);
                        return 1;
                }
                if (longopt) { i += eq = clam_match_char(arg + i, '='); }
                arg += i;
                if (!eq && clam_match_end(arg)) {
                        arg = argv[++a];
                        if (a == argc) {
                                printf("link requires an argument\n");
                                return 1;
                        }
                }
                printf("linking with %s\n", arg);
                continue;
        }
        if (i = clam_match_windows_switch(arg, "Ff")) {
                arg = argv[++a];
                if (a < argc) {
                        printf("doing something with with %s\n", arg);
                } else {
                        printf("using a default with /f");
                }
                continue;
        }
    }
>> *)
Fixpoint main_loop (fuel callee : nat) (argc : Z) (argv : list cptr) (a : Z)
    (out : list printf_call) : Datatypes.option (Z * list printf_call) :=
  match fuel with
  | O => None
  | S fuel' =>
      if a <? argc then
        let arg := argv_at argv a in
        i <- clam_match_posix_option callee arg (Some "h"%string) ;;
        i <- (if truthy i then ret i
              else clam_match_posix_long_option callee arg "-help"%string) ;;
        if truthy i then ret (0, out ++ usage)
        else
          i <- clam_match_posix_long_option callee arg "link"%string ;;
          choice <-
            (if truthy i then ret (true, i)
             else
               i <- clam_match_posix_long_option callee arg "-link"%string ;;
               if truthy i then ret (true, i)
               else
                 i <- clam_match_posix_option callee arg (Some "l"%string) ;;
                 ret (false, i)) ;;
          let longopt : bool := fst choice in
          let i : Z := snd choice in
          if truthy i then
            if longopt && negb (truthy (clam_match_end (ptr_add arg i)))
               && negb (truthy (clam_match_char (ptr_add arg i) "="%char))
            then ret (1, out ++ [invalid_trailer (ptr_add arg i) i arg])
            else
              let eq := if longopt then clam_match_char (ptr_add arg i) "="%char
                        else 0 in
              let i := if longopt then uintptr (i + eq) else i in
              let arg := ptr_add arg i in
              if negb (truthy eq) && truthy (clam_match_end arg) then
                let a := a + 1 in
                let arg := argv_at argv a in
                if a =? argc then ret (1, out ++ [link_requires_argument])
                else main_loop fuel' callee argc argv (a + 1)
                       (out ++ [linking_with arg])
              else main_loop fuel' callee argc argv (a + 1)
                     (out ++ [linking_with arg])
          else
            i <- clam_match_windows_switch callee arg (Some "Ff"%string) ;;
            if truthy i then
              let a := a + 1 in
              let arg := argv_at argv a in
              main_loop fuel' callee argc argv (a + 1)
                (out ++ [if a <? argc then doing_something_with arg
                         else using_a_default])
            else main_loop fuel' callee argc argv (a + 1) out
      else ret (0, out)
  end.

(** [main(argc, argv)] with [argc] the number of strings of [argv]. *)
Definition main (fuel : nat) (argv : list cptr)
    : Datatypes.option (Z * list printf_call) :=
  main_loop fuel fuel (Z.of_nat (List.length argv)) argv 0 [].

(** Fuel for [main]: for its loop over [argv] and for the matchers on every
    argument and on the option literals. *)
Definition covers_argv (fuel : nat) (argv : list cptr) : Prop :=
  (2 < fuel)%nat
  /\ (List.length argv < fuel)%nat
  /\ Forall (covers fuel) argv.

(** [INT_MAX] of <limits.h>, for a 32-bit [int]. *)
Definition INT_MAX : Z := 2147483647.

(** Every argument is a string, and there are fewer than [INT_MAX] of them:
    the index [a] is an [int] and goes up to [argc + 1]. *)
Definition valid_argv (argv : list cptr) : Prop :=
  Forall valid_read_string argv
  /\ Z.of_nat (List.length argv) < INT_MAX.

(** An argument that starts with neither ['-'] nor ['/']. *)
Definition plain (arg : cptr) : Prop :=
  index arg 0 <> "-"%char /\ index arg 0 <> "/"%char.

End Example.

Import Clam Spec.

(** Conditions on concrete strings, settled by evaluation. *)
Ltac by_evaluation :=
  repeat match goal with
         | |- _ /\ _ => split
         | |- True => exact I
         end;
  match goal with
  | |- valid_read_string_or_null _ => vm_compute; try exact I; discriminate
  | |- valid_read_string _ => vm_compute; discriminate
  | |- covers_or_null _ _ => vm_compute; try exact I; lia
  | |- covers _ _ => vm_compute; lia
  end.

(** * The test suite

    The assertions of [tests.c] on the matchers, evaluated on the embedding. *)

Section Tests.
Local Open Scope string_scope.

Example test_char :
  clam_match_char "A" "A" = 1 /\ clam_match_char "A" "a" = 0.
Proof. split; reflexivity. Qed.

Example test_end : clam_match_end "" = 1 /\ clam_match_end "A" = 0.
Proof. split; reflexivity. Qed.

Example test_anychar :
  clam_match_anychar 6 "A" (Some "aA123") = Some 1
  /\ clam_match_anychar 6 "A" None = Some 1
  /\ clam_match_anychar 6 "B" (Some "aA123") = Some 0.
Proof. repeat split; reflexivity. Qed.

Example test_chars :
  clam_match_chars 4 "AA" "AA" = Some 2
  /\ clam_match_chars 4 "AAZ" "AA" = Some 2
  /\ clam_match_chars 4 "AA" "BAA" = Some 0
  /\ clam_match_chars 4 "AAA" "ABA" = Some 0
  /\ clam_match_chars 4 "BA" "BAA" = Some 0.
Proof. repeat split; reflexivity. Qed.

Example test_chars_to_end :
  clam_match_chars_to_end 4 "AA" "AA" = Some 2
  /\ clam_match_chars_to_end 4 "AAZ" "AA" = Some 0
  /\ clam_match_chars_to_end 4 "AA" "BAA" = Some 0.
Proof. repeat split; reflexivity. Qed.

Example test_unsigned_integer10 :
  clam_match_unsigned_integer10 7 "1234a" = Some 4
  /\ clam_match_unsigned_integer10 7 "a1234a" = Some 0.
Proof. split; reflexivity. Qed.

Example test_signed_integer10 :
  clam_match_signed_integer10 8 "--1234a" = Some 0
  /\ clam_match_signed_integer10 8 "a1234a" = Some 0.
Proof. split; reflexivity. Qed.

Example test_posix_option :
  clam_match_posix_option 6 "-" (Some "dacb1") = Some 0
  /\ clam_match_posix_option 6 "-A" (Some "dacb1") = Some 0.
Proof. split; reflexivity. Qed.

Example test_posix_flags :
  clam_match_posix_flags 7 "-abcd1" (Some "dacb1") = Some 6
  /\ clam_match_posix_flags 7 "-abcd" None = Some 5
  /\ clam_match_posix_flags 7 "-abcd" (Some "dac") = Some 0
  /\ clam_match_posix_flags 7 "-abcd_" (Some "dacb") = Some 0.
Proof. repeat split; reflexivity. Qed.

Example test_posix_long_option :
  clam_match_posix_long_option 9 "--hello" "-hello" = Some 7
  /\ clam_match_posix_long_option 9 "--hellop" "-hello" = Some 7
  /\ clam_match_posix_long_option 9 "--hellop" "-help" = Some 0
  /\ clam_match_posix_long_option 9 "--hellop" "hellop" = Some 0
  /\ clam_match_posix_long_option 9 "-" "" = Some 0.
Proof. repeat split; reflexivity. Qed.

Example test_windows :
  clam_match_windows_switch 6 "/a" (Some "dacb1") = Some 2
  /\ clam_match_windows_switch 6 "/azrf" (Some "dacb1") = Some 2
  /\ clam_match_windows_switch 6 "/" (Some "dacb1") = Some 0
  /\ clam_match_windows_switch 6 "/A" (Some "dacb1") = Some 0
  /\ clam_match_windows_long_switch 8 "/hello" "hello" = Some 6
  /\ clam_match_windows_long_switch 8 "/hellop" "hello" = Some 6
  /\ clam_match_windows_long_switch 8 "/hellop" "help" = Some 0
  /\ clam_match_windows_long_switch 8 "/hellop" "" = Some 0.
Proof. repeat split; reflexivity. Qed.

(** Without fuel a loop gives no result. *)
Example test_no_fuel : clam_match_chars 0 "AA" "AA" = None.
Proof. reflexivity. Qed.

End Tests.

(** * Properties *)

(** ** Integers and conditions *)

Lemma truthy_c_bool (b : bool) : truthy (c_bool b) = b.
Proof. destruct b; reflexivity. Qed.

Lemma uintptr_small (z : Z) : 0 <= z <= UINTPTR_MAX -> uintptr z = z.
Proof. intros H. unfold uintptr. apply Z.mod_small. lia. Qed.

Lemma uintptr_succ (n : nat) :
  Z.of_nat (S n) <= UINTPTR_MAX -> uintptr (Z.of_nat n + 1) = Z.of_nat (S n).
Proof. intros H. rewrite uintptr_small; lia. Qed.

(** ** Pointers and strings *)

Lemma ptr_add_of_nat (p : cptr) (n : nat) :
  ptr_add p (Z.of_nat n) = ptr_add_nat p n.
Proof. unfold ptr_add. now rewrite Nat2Z.id. Qed.

Lemma ptr_add_0 (p : cptr) : ptr_add p 0 = p.
Proof. reflexivity. Qed.

Lemma ptr_add_1 (c : ascii) (p : cptr) : ptr_add (String c p) 1 = p.
Proof. reflexivity. Qed.

Lemma index_0 (p : cptr) : index p 0 = deref p.
Proof. reflexivity. Qed.

Lemma ptr_add_nat_step (p : cptr) (n : nat) (c : ascii) (r : cptr) :
  ptr_add_nat p n = String c r -> ptr_add_nat p (S n) = r.
Proof.
  revert p. induction n as [|n IH]; intros p H; simpl in *.
  - now subst p.
  - destruct p as [|d p']; [discriminate|]. now apply IH.
Qed.

Lemma cstring_cons (c : ascii) (p : cptr) :
  c <> NUL -> cstring (String c p) = c :: cstring p.
Proof.
  intros H. simpl. destruct (Ascii.eqb_spec c NUL); [contradiction|reflexivity].
Qed.

(** A pointer either stands at the terminator, and its string is empty, or
    at a character that starts its string. *)
Lemma cptr_cases (p : cptr) :
  (deref p = NUL /\ cstring p = [])
  \/ (exists c r, p = String c r /\ c <> NUL /\ cstring p = c :: cstring r).
Proof.
  destruct p as [|c r]; [left; split; reflexivity|].
  destruct (Ascii.eqb_spec c NUL) as [->|Hc].
  - left; split; reflexivity.
  - right. exists c, r. split; [reflexivity|]. split; [assumption|].
    now apply cstring_cons.
Qed.

Lemma match_end_truthy (p : cptr) :
  truthy (clam_match_end p) = Ascii.eqb (deref p) NUL.
Proof. unfold clam_match_end, clam_match_char. now rewrite truthy_c_bool. Qed.

Lemma match_end_empty (p : cptr) :
  cstring p = [] -> clam_match_end p = 1.
Proof.
  intros H. destruct (cptr_cases p) as [[Hd _]|(c & r & _ & _ & Hs)].
  - unfold clam_match_end, clam_match_char. rewrite index_0, Hd. reflexivity.
  - congruence.
Qed.

Lemma match_end_nonempty (p : cptr) :
  cstring p <> [] -> clam_match_end p = 0.
Proof.
  intros H. destruct (cptr_cases p) as [[_ Hs]|(c & r & -> & Hc & _)].
  - contradiction.
  - unfold clam_match_end, clam_match_char. rewrite index_0. simpl.
    destruct (Ascii.eqb_spec c NUL); [contradiction|reflexivity].
Qed.

Lemma deref_cstring (p : cptr) (c : ascii) (l : list ascii) :
  cstring p = c :: l -> deref p = c /\ c <> NUL /\ cstring (ptr_add p 1) = l.
Proof.
  intros H. destruct (cptr_cases p) as [[_ Hs]|(d & r & -> & Hd & Hs)].
  - congruence.
  - rewrite Hs in H. injection H as -> <-. now rewrite ptr_add_1.
Qed.

Lemma cstring_ptr_add_nat (p : cptr) (n : nat) :
  (n <= strlen p)%nat -> cstring (ptr_add_nat p n) = skipn n (cstring p).
Proof.
  revert p. induction n as [|n IH]; intros p Hn; [reflexivity|].
  unfold strlen in Hn.
  destruct (cptr_cases p) as [[_ Hs]|(c & r & -> & Hc & Hs)].
  - rewrite Hs in Hn. simpl in Hn. lia.
  - rewrite Hs in *. simpl in Hn. cbn [ptr_add_nat skipn].
    apply IH. unfold strlen. lia.
Qed.

(** ** The vocabulary of the specification *)

Lemma common_prefix_len_le_l (a b : list ascii) :
  (common_prefix_len a b <= List.length a)%nat.
Proof.
  revert b. induction a as [|x a IH]; intros [|y b]; simpl; try lia.
  destruct (Ascii.eqb x y); [specialize (IH b)|]; lia.
Qed.

Lemma common_prefix_len_le_r (a b : list ascii) :
  (common_prefix_len a b <= List.length b)%nat.
Proof.
  revert b. induction a as [|x a IH]; intros [|y b]; simpl; try lia.
  destruct (Ascii.eqb x y); [specialize (IH b)|]; lia.
Qed.

(** The scan stops at the end of [b] exactly when [b] is a prefix of [a]. *)
Lemma common_prefix_len_full (a b : list ascii) :
  skipn (common_prefix_len a b) b = [] <-> is_prefix b a = true.
Proof.
  revert b. induction a as [|x a IH]; intros [|y b]; simpl;
    try (split; [reflexivity|reflexivity]); try (split; discriminate).
  rewrite (Ascii.eqb_sym y x). destruct (Ascii.eqb x y); simpl.
  - apply IH.
  - split; discriminate.
Qed.

Lemma is_prefix_common_prefix_len (a b : list ascii) :
  is_prefix b a = true -> common_prefix_len a b = List.length b.
Proof.
  revert b. induction a as [|x a IH]; intros [|y b]; simpl;
    try reflexivity; try discriminate.
  rewrite (Ascii.eqb_sym y x). destruct (Ascii.eqb x y); simpl;
    [|discriminate].
  intros H. now rewrite IH.
Qed.

Lemma is_prefix_refl (a : list ascii) : is_prefix a a = true.
Proof.
  induction a as [|x a IH]; simpl; [reflexivity|].
  now rewrite Ascii.eqb_refl.
Qed.

Lemma is_prefix_same_length (a b : list ascii) :
  is_prefix b a = true -> List.length a = List.length b -> a = b.
Proof.
  revert b. induction a as [|x a IH]; intros [|y b]; simpl;
    try reflexivity; try discriminate.
  intros H L. apply andb_true_iff in H as [Hxy H].
  apply Ascii.eqb_eq in Hxy as ->. f_equal. apply IH; [assumption|lia].
Qed.

Lemma digit_run_le (l : list ascii) : (digit_run l <= List.length l)%nat.
Proof.
  induction l as [|c l IH]; simpl; [lia|]. destruct (is_digit c); lia.
Qed.

Lemma is_digit_not_nul : is_digit NUL = false.
Proof. reflexivity. Qed.

Lemma is_alphanumeric_not_nul : is_alphanumeric NUL = false.
Proof. reflexivity. Qed.

(** ** The loops *)

Lemma chars_loop_step (fuel : nat) (input chars : cptr) (i : Z) :
  clam_match_chars_loop (S fuel) input chars i =
  if negb (truthy (clam_match_end (ptr_add input i)))
     && negb (truthy (clam_match_end (ptr_add chars i)))
     && truthy (clam_match_char (ptr_add input i) (index chars i))
  then clam_match_chars_loop fuel input chars (uintptr (i + 1))
  else ret i.
Proof. reflexivity. Qed.

(** From offset [n] the lock-step scan advances by the number of equal
    leading characters of the two strings at that offset. *)
Lemma chars_loop_spec (fuel : nat) (input chars : cptr) (n : nat) :
  let k := common_prefix_len (cstring (ptr_add_nat input n))
             (cstring (ptr_add_nat chars n)) in
  (k < fuel)%nat ->
  Z.of_nat (n + k) <= UINTPTR_MAX ->
  clam_match_chars_loop fuel input chars (Z.of_nat n) =
  Some (Z.of_nat (n + k)).
Proof.
  revert n. induction fuel as [|fuel IH]; intros n k Hk Hmax; [lia|].
  rewrite chars_loop_step. unfold index. rewrite !ptr_add_of_nat.
  rewrite !match_end_truthy. unfold clam_match_char.
  rewrite truthy_c_bool, index_0. subst k.
  destruct (cptr_cases (ptr_add_nat input n))
    as [[Hd Hs]|(c & r & Hp & Hc & Hs)].
  - rewrite Hd, Hs in *. simpl. rewrite Nat.add_0_r. reflexivity.
  - destruct (cptr_cases (ptr_add_nat chars n))
      as [[Hd' Hs']|(c' & r' & Hp' & Hc' & Hs')].
    + rewrite Hd', Hs', Hs in *. simpl. rewrite andb_false_r.
      rewrite Nat.add_0_r. reflexivity.
    + rewrite Hs, Hs' in *. rewrite Hp, Hp'. cbn [deref common_prefix_len] in *.
      destruct (Ascii.eqb_spec c NUL) as [|_]; [contradiction|].
      destruct (Ascii.eqb_spec c' NUL) as [|_]; [contradiction|].
      cbn [negb andb].
      destruct (Ascii.eqb c c').
      * rewrite uintptr_succ by lia.
        pose proof (IH (S n)) as IH'. cbn zeta in IH'.
        rewrite (ptr_add_nat_step _ _ _ _ Hp) in IH'.
        rewrite (ptr_add_nat_step _ _ _ _ Hp') in IH'.
        rewrite IH' by lia. f_equal. lia.
      * rewrite Nat.add_0_r. reflexivity.
Qed.

Lemma anychar_loop_step (fuel : nat) (input chars : cptr) (i result : Z) :
  clam_match_anychar_loop (S fuel) input chars i result =
  if negb (truthy result) && negb (truthy (clam_match_end (ptr_add chars i)))
  then
    let result := clam_match_char input (index chars i) in
    if truthy result then ret result
    else clam_match_anychar_loop fuel input chars (uintptr (i + 1)) result
  else ret result.
Proof. reflexivity. Qed.

(** From offset [n] of the set, the scan answers whether the first
    character of the input is among the characters left in the set. *)
Lemma anychar_loop_spec (fuel : nat) (input chars : cptr) (n : nat) :
  let l := cstring (ptr_add_nat chars n) in
  (List.length l < fuel)%nat ->
  Z.of_nat (n + List.length l) <= UINTPTR_MAX ->
  clam_match_anychar_loop fuel input chars (Z.of_nat n) 0 =
  Some (c_bool (existsb (Ascii.eqb (deref input)) l)).
Proof.
  revert n. induction fuel as [|fuel IH]; intros n l Hl Hmax; [lia|].
  rewrite anychar_loop_step. unfold index. rewrite !ptr_add_of_nat.
  rewrite match_end_truthy. cbn zeta. unfold clam_match_char.
  rewrite truthy_c_bool, index_0. subst l.
  destruct (cptr_cases (ptr_add_nat chars n))
    as [[Hd Hs]|(c & r & Hp & Hc & Hs)].
  - rewrite Hd, Hs. reflexivity.
  - rewrite Hs in *. rewrite Hp. cbn [deref existsb List.length] in *.
    destruct (Ascii.eqb_spec c NUL) as [|_]; [contradiction|].
    cbn [truthy Z.eqb negb andb].
    destruct (Ascii.eqb (deref input) c); [reflexivity|].
    cbn [c_bool truthy Z.eqb negb orb]. rewrite uintptr_succ by lia.
    pose proof (IH (S n)) as IH'. cbn zeta in IH'.
    rewrite (ptr_add_nat_step _ _ _ _ Hp) in IH'.
    rewrite IH' by lia. reflexivity.
Qed.

Lemma numeric10_char_spec (p : cptr) :
  clam_match_numeric10_char p = c_bool (is_digit (deref p)).
Proof. reflexivity. Qed.

Lemma alphanumeric_char_spec (p : cptr) :
  clam_match_alphanumeric_char p = c_bool (is_alphanumeric (deref p)).
Proof.
  unfold clam_match_alphanumeric_char, clam_match_alpha_char,
    clam_match_lowercase_char, clam_match_uppercase_char.
  rewrite numeric10_char_spec, !truthy_c_bool, index_0. reflexivity.
Qed.

Lemma unsigned_loop_step (fuel : nat) (input : cptr) (i : Z) :
  clam_match_unsigned_integer10_loop (S fuel) input i =
  if truthy (clam_match_numeric10_char (ptr_add input i))
  then clam_match_unsigned_integer10_loop fuel input (uintptr (i + 1))
  else ret i.
Proof. reflexivity. Qed.

(** From offset [n] the digit scan advances by the run of digits there. *)
Lemma unsigned_loop_spec (fuel : nat) (input : cptr) (n : nat) :
  let k := digit_run (cstring (ptr_add_nat input n)) in
  (k < fuel)%nat ->
  Z.of_nat (n + k) <= UINTPTR_MAX ->
  clam_match_unsigned_integer10_loop fuel input (Z.of_nat n) =
  Some (Z.of_nat (n + k)).
Proof.
  revert n. induction fuel as [|fuel IH]; intros n k Hk Hmax; [lia|].
  rewrite unsigned_loop_step, ptr_add_of_nat, numeric10_char_spec,
    truthy_c_bool. subst k.
  destruct (cptr_cases (ptr_add_nat input n))
    as [[Hd Hs]|(c & r & Hp & Hc & Hs)].
  - rewrite Hd, Hs, is_digit_not_nul. simpl. rewrite Nat.add_0_r.
    reflexivity.
  - rewrite Hs in *. rewrite Hp. cbn [deref digit_run] in *.
    destruct (is_digit c).
    + rewrite uintptr_succ by lia.
      pose proof (IH (S n)) as IH'. cbn zeta in IH'.
      rewrite (ptr_add_nat_step _ _ _ _ Hp) in IH'.
      rewrite IH' by lia. f_equal. lia.
    + rewrite Nat.add_0_r. reflexivity.
Qed.

(** ** The matchers *)

(** What [clam_match_anychar] returns, given fuel for the set. *)
Lemma anychar_spec (fuel : nat) (input : cptr) (chars : option cptr) :
  valid_read_string_or_null chars ->
  covers_or_null fuel chars ->
  clam_match_anychar fuel input chars =
  Some (match cstring input with
        | [] => 0
        | c :: _ => c_bool (accepted chars c)
        end).
Proof.
  intros Hv Hf. unfold clam_match_anychar. rewrite match_end_truthy.
  destruct (cptr_cases input) as [[Hd Hs]|(c & r & Hp & Hc & Hs)].
  - rewrite Hd, Hs. reflexivity.
  - rewrite Hs, Hp. cbn [deref].
    destruct (Ascii.eqb_spec c NUL) as [|_]; [contradiction|].
    destruct chars as [chars|]; [|reflexivity].
    change 0 with (Z.of_nat 0) at 1.
    rewrite anychar_loop_spec.
    + reflexivity.
    + exact Hf.
    + exact Hv.
Qed.

Lemma chars_loop_result (fuel : nat) (input chars : cptr) :
  valid_read_string input ->
  covers fuel input ->
  clam_match_chars_loop fuel input chars 0 =
  Some (Z.of_nat (common_prefix_len (cstring input) (cstring chars))).
Proof.
  intros Hv Hf. unfold valid_read_string, covers, strlen in *.
  pose proof (common_prefix_len_le_l (cstring input) (cstring chars)).
  change 0 with (Z.of_nat 0). rewrite chars_loop_spec; cbn [ptr_add_nat].
  - reflexivity.
  - lia.
  - lia.
Qed.

Lemma match_end_truthy_iff (p : cptr) :
  truthy (clam_match_end p) = true <-> cstring p = [].
Proof.
  rewrite match_end_truthy.
  destruct (cptr_cases p) as [[Hd Hs]|(c & r & -> & Hc & Hs)].
  - rewrite Hd, Hs. split; reflexivity.
  - rewrite Hs. cbn [deref].
    destruct (Ascii.eqb_spec c NUL); [contradiction|]. split; discriminate.
Qed.

Lemma is_prefix_length (a b : list ascii) :
  is_prefix b a = true -> (List.length b <= List.length a)%nat.
Proof.
  revert b. induction a as [|x a IH]; intros [|y b]; simpl;
    try lia; try discriminate.
  intros H. apply andb_true_iff in H as [_ H]. specialize (IH _ H). lia.
Qed.

Lemma skipn_nil_iff (A : Type) (n : nat) (l : list A) :
  skipn n l = [] <-> (List.length l <= n)%nat.
Proof.
  revert l. induction n as [|n IH]; intros [|x l]; simpl;
    try (split; [lia|reflexivity]).
  - split; [discriminate|lia].
  - rewrite IH. lia.
Qed.

(** What [clam_match_at_least_n_chars] returns. *)
Lemma at_least_n_chars_spec (fuel : nat) (input : cptr) (n : Z) (chars : cptr) :
  valid_read_string input ->
  covers fuel input ->
  clam_match_at_least_n_chars fuel input n chars =
  Some (let i := Z.of_nat (common_prefix_len (cstring input) (cstring chars)) in
        if n <=? i then i else 0).
Proof.
  intros Hv Hf. unfold clam_match_at_least_n_chars.
  rewrite chars_loop_result by assumption. reflexivity.
Qed.

(** What [clam_match_chars] returns: the length of [chars] when [chars] is a
    prefix of the input, else 0. *)
Lemma chars_spec (fuel : nat) (input chars : cptr) :
  valid_read_string input ->
  covers fuel input ->
  clam_match_chars fuel input chars =
  Some (if is_prefix (cstring chars) (cstring input)
        then Z.of_nat (strlen chars) else 0).
Proof.
  intros Hv Hf. unfold clam_match_chars.
  rewrite chars_loop_result by assumption. cbn [bind ret]. apply f_equal.
  rewrite ptr_add_of_nat.
  pose proof (common_prefix_len_le_r (cstring input) (cstring chars)) as Hle.
  pose proof (common_prefix_len_full (cstring input) (cstring chars)) as Hfull.
  rewrite <- cstring_ptr_add_nat in Hfull by exact Hle.
  rewrite <- match_end_truthy_iff in Hfull.
  destruct (is_prefix (cstring chars) (cstring input)) eqn:E.
  - rewrite (proj2 Hfull eq_refl).
    rewrite is_prefix_common_prefix_len by assumption. reflexivity.
  - destruct (truthy _); [|reflexivity].
    destruct Hfull as [Hfull _]. specialize (Hfull eq_refl). discriminate.
Qed.

(** What [clam_match_chars_to_end] returns: the length of [chars] when the
    input is [chars], else 0. *)
Lemma chars_to_end_spec (fuel : nat) (input chars : cptr) :
  valid_read_string input ->
  covers fuel input ->
  clam_match_chars_to_end fuel input chars =
  Some (if list_eq_dec ascii_dec (cstring input) (cstring chars)
        then Z.of_nat (strlen chars) else 0).
Proof.
  intros Hv Hf. unfold clam_match_chars_to_end.
  rewrite chars_spec by assumption.
  destruct (is_prefix (cstring chars) (cstring input)) eqn:E; cbn [bind ret].
  - pose proof (is_prefix_length _ _ E) as Hle.
    destruct (strlen chars) as [|k] eqn:Ek.
    + cbn. destruct (list_eq_dec _ _ _); reflexivity.
    + replace (truthy (Z.of_nat (S k))) with true
        by (unfold truthy; destruct (Z.eqb_spec (Z.of_nat (S k)) 0);
            [lia|reflexivity]).
      cbn [negb]. unfold ret. apply f_equal. rewrite ptr_add_of_nat.
      pose proof (match_end_truthy_iff (ptr_add_nat input (S k))) as Hend.
      rewrite cstring_ptr_add_nat in Hend by (unfold strlen in *; lia).
      rewrite skipn_nil_iff in Hend.
      destruct (list_eq_dec ascii_dec (cstring input) (cstring chars))
        as [Heq|Hne].
      * rewrite (proj2 Hend); [reflexivity|].
        rewrite Heq. unfold strlen in Ek. lia.
      * destruct (truthy _); [|reflexivity].
        exfalso. apply Hne. apply is_prefix_same_length; [assumption|].
        destruct Hend as [Hend _]. specialize (Hend eq_refl).
        unfold strlen in *. lia.
  - cbn. destruct (list_eq_dec ascii_dec (cstring input) (cstring chars))
      as [Heq|Hne]; [|reflexivity].
    rewrite Heq, is_prefix_refl in E. discriminate.
Qed.

(** What [clam_match_unsigned_integer10] returns. *)
Lemma unsigned_integer10_spec (fuel : nat) (input : cptr) :
  valid_read_string input ->
  covers fuel input ->
  clam_match_unsigned_integer10 fuel input =
  Some (Z.of_nat (digit_run (cstring input))).
Proof.
  intros Hv Hf. unfold valid_read_string, covers, strlen in *.
  pose proof (digit_run_le (cstring input)).
  unfold clam_match_unsigned_integer10. change 0 with (Z.of_nat 0).
  rewrite unsigned_loop_spec; cbn [ptr_add_nat].
  - reflexivity.
  - lia.
  - lia.
Qed.

Lemma deref_empty (p : cptr) : cstring p = [] -> deref p = NUL.
Proof.
  intros H. destruct (cptr_cases p) as [[Hd _]|(c & r & _ & _ & Hs)];
    [assumption|congruence].
Qed.

(** Past the first character of a non-empty string lies a string that is
    one shorter. *)
Lemma tail_string (fuel : nat) (p : cptr) (c : ascii) (l : list ascii) :
  cstring p = c :: l ->
  valid_read_string p ->
  covers fuel p ->
  valid_read_string (ptr_add p 1) /\ covers fuel (ptr_add p 1).
Proof.
  intros H Hv Hf. apply deref_cstring in H as H'. destruct H' as (_ & _ & Hl).
  unfold valid_read_string, covers, strlen in *. rewrite Hl, H in *.
  simpl in *. lia.
Qed.

Lemma truthy_of_nat (n : nat) : truthy (Z.of_nat n) = negb (n =? 0)%nat.
Proof.
  unfold truthy. destruct n; [reflexivity|].
  destruct (Z.eqb_spec (Z.of_nat (S n)) 0); [lia|reflexivity].
Qed.

(** What [clam_match_signed_integer10] returns. *)
Lemma signed_integer10_spec (fuel : nat) (input : cptr) :
  valid_read_string input ->
  covers fuel input ->
  covers fuel clam__signs ->
  clam_match_signed_integer10 fuel input =
  Some (let s := sign_length (cstring input) in
        let d := digit_run (skipn s (cstring input)) in
        if (d =? 0)%nat then 0 else Z.of_nat (s + d)).
Proof.
  intros Hv Hf Hs. unfold clam_match_signed_integer10.
  rewrite anychar_spec; [|vm_compute; discriminate|exact Hs].
  cbn [bind].
  destruct (cstring input) as [|c l] eqn:E.
  - rewrite ptr_add_0, unsigned_integer10_spec by assumption.
    rewrite E. reflexivity.
  - cbn [accepted sign_length]. unfold in_set.
    change (cstring clam__signs) with ["-"%char; "+"%char].
    cbn [existsb]. rewrite orb_false_r, orb_comm.
    destruct (Ascii.eqb c "+" || Ascii.eqb c "-") eqn:Esign; cbn [c_bool].
    + destruct (tail_string fuel _ _ _ E Hv Hf) as [Hv' Hf'].
      rewrite unsigned_integer10_spec by assumption.
      apply deref_cstring in E as E'. destruct E' as (_ & _ & ->).
      cbn [bind ret skipn]. apply f_equal. rewrite truthy_of_nat.
      pose proof (digit_run_le l).
      destruct (digit_run l =? 0)%nat; [reflexivity|]. cbn [negb].
      rewrite uintptr_small; [lia|]. unfold valid_read_string, strlen in Hv.
      rewrite E in Hv. simpl in Hv. lia.
    + rewrite ptr_add_0, unsigned_integer10_spec by assumption.
      rewrite E. cbn [bind ret skipn]. apply f_equal.
      rewrite truthy_of_nat. pose proof (digit_run_le (c :: l)).
      destruct (digit_run (c :: l) =? 0)%nat; [reflexivity|]. cbn [negb].
      rewrite uintptr_small; [lia|]. unfold valid_read_string, strlen in Hv.
      rewrite E in Hv. lia.
Qed.

(** The shape shared by [clam_match_posix_option] (delimiter ['-']) and
    [clam_match_windows_switch] (delimiter ['/']). *)
Lemma switch_spec (d : ascii) (fuel : nat) (input : cptr)
    (allowed : option cptr) :
  d <> NUL ->
  valid_read_string_or_null allowed ->
  covers_or_null fuel allowed ->
  (if truthy (clam_match_char input d) then
     if truthy (clam_match_alphanumeric_char (ptr_add input 1)) then
       r <- clam_match_anychar fuel (ptr_add input 1) allowed ;;
       ret (if truthy r then 2 else 0)
     else ret 0
   else ret 0) =
  Some (match cstring input with
        | c0 :: c1 :: _ =>
            if Ascii.eqb c0 d && is_alphanumeric c1 && accepted allowed c1
            then 2 else 0
        | _ => 0
        end).
Proof.
  intros Hd Hv Hf. unfold clam_match_char.
  rewrite truthy_c_bool, index_0, alphanumeric_char_spec, truthy_c_bool.
  rewrite anychar_spec by assumption.
  destruct (cstring input) as [|c0 l] eqn:E.
  - rewrite (deref_empty _ E).
    destruct (Ascii.eqb_spec NUL d); [congruence|reflexivity].
  - apply deref_cstring in E as (-> & _ & El). rewrite El.
    destruct l as [|c1 l].
    + rewrite (deref_empty _ El), is_alphanumeric_not_nul.
      destruct (Ascii.eqb c0 d); reflexivity.
    + apply deref_cstring in El as (-> & _ & _).
      destruct (Ascii.eqb c0 d); [|reflexivity]. cbn [andb].
      destruct (is_alphanumeric _); [|reflexivity].
      cbn [bind ret andb]. rewrite truthy_c_bool. reflexivity.
Qed.

(** The shape shared by [clam_match_posix_long_option] (delimiter ['-']) and
    [clam_match_windows_long_switch] (delimiter ['/']). *)
Lemma long_spec (d : ascii) (fuel : nat) (input name : cptr) :
  d <> NUL ->
  valid_read_string input ->
  covers fuel input ->
  (let dash := clam_match_char input d in
   if dash =? 0 then ret 0
   else
     opt <- clam_match_chars fuel (ptr_add input dash) name ;;
     ret (if truthy opt then uintptr (dash + opt) else 0)) =
  Some (match cstring input with
        | c0 :: rest =>
            if Ascii.eqb c0 d && is_prefix (cstring name) rest
            then if (strlen name =? 0)%nat then 0
                 else 1 + Z.of_nat (strlen name)
            else 0
        | [] => 0
        end).
Proof.
  intros Hd Hv Hf. cbn zeta. unfold clam_match_char. rewrite index_0.
  destruct (cstring input) as [|c0 l] eqn:E.
  - rewrite (deref_empty _ E).
    destruct (Ascii.eqb_spec NUL d); [congruence|reflexivity].
  - destruct (tail_string fuel _ _ _ E Hv Hf) as [Hv' Hf'].
    apply deref_cstring in E as E'. destruct E' as (-> & _ & El).
    destruct (Ascii.eqb c0 d); [|reflexivity].
    cbn [c_bool Z.eqb andb]. rewrite chars_spec by assumption. rewrite El.
    destruct (is_prefix (cstring name) l) eqn:Ep; [|reflexivity].
    cbn [bind ret]. apply f_equal. rewrite truthy_of_nat.
    destruct (strlen name =? 0)%nat; [reflexivity|]. cbn [negb].
    apply uintptr_small. apply is_prefix_length in Ep.
    unfold valid_read_string, strlen in *. rewrite E in Hv. simpl in Hv. lia.
Qed.

Lemma posix_option_spec (fuel : nat) (input : cptr) (allowed : option cptr) :
  valid_read_string_or_null allowed ->
  covers_or_null fuel allowed ->
  clam_match_posix_option fuel input allowed =
  Some (match cstring input with
        | c0 :: c1 :: _ =>
            if Ascii.eqb c0 "-" && is_alphanumeric c1 && accepted allowed c1
            then 2 else 0
        | _ => 0
        end).
Proof. apply switch_spec. discriminate. Qed.

Lemma windows_switch_spec (fuel : nat) (input : cptr) (allowed : option cptr) :
  valid_read_string_or_null allowed ->
  covers_or_null fuel allowed ->
  clam_match_windows_switch fuel input allowed =
  Some (match cstring input with
        | c0 :: c1 :: _ =>
            if Ascii.eqb c0 "/" && is_alphanumeric c1 && accepted allowed c1
            then 2 else 0
        | _ => 0
        end).
Proof. apply switch_spec. discriminate. Qed.

Lemma posix_long_option_spec (fuel : nat) (input name : cptr) :
  valid_read_string input ->
  covers fuel input ->
  clam_match_posix_long_option fuel input name =
  Some (match cstring input with
        | c0 :: rest =>
            if Ascii.eqb c0 "-" && is_prefix (cstring name) rest
            then if (strlen name =? 0)%nat then 0
                 else 1 + Z.of_nat (strlen name)
            else 0
        | [] => 0
        end).
Proof. apply long_spec. discriminate. Qed.

Lemma windows_long_switch_spec (fuel : nat) (input name : cptr) :
  valid_read_string input ->
  covers fuel input ->
  clam_match_windows_long_switch fuel input name =
  Some (match cstring input with
        | c0 :: rest =>
            if Ascii.eqb c0 "/" && is_prefix (cstring name) rest
            then if (strlen name =? 0)%nat then 0
                 else 1 + Z.of_nat (strlen name)
            else 0
        | [] => 0
        end).
Proof. apply long_spec. discriminate. Qed.

Lemma flags_loop_step (fuel callee : nat) (input : cptr)
    (allowed : option cptr) (i : Z) :
  clam_match_posix_flags_loop (S fuel) callee input allowed i =
  if negb (truthy (clam_match_end (ptr_add input i))) then
    if truthy (clam_match_alphanumeric_char (ptr_add input i)) then
      r <- clam_match_anychar callee (ptr_add input i) allowed ;;
      if truthy r
      then clam_match_posix_flags_loop fuel callee input allowed
             (uintptr (i + 1))
      else ret 0
    else ret 0
  else ret (if 1 <? i then i else 0).
Proof. reflexivity. Qed.

(** From offset [n] the flags scan reaches the end of the input when every
    character left is a flag, and gives up otherwise. *)
Lemma flags_loop_spec (fuel callee : nat) (input : cptr)
    (allowed : option cptr) (n : nat) :
  let l := cstring (ptr_add_nat input n) in
  valid_read_string_or_null allowed ->
  covers_or_null callee allowed ->
  (List.length l < fuel)%nat ->
  Z.of_nat (n + List.length l) <= UINTPTR_MAX ->
  clam_match_posix_flags_loop fuel callee input allowed (Z.of_nat n) =
  Some (if forallb (is_flag allowed) l
        then let r := Z.of_nat (n + List.length l) in if 1 <? r then r else 0
        else 0).
Proof.
  intros l Hv Hc. subst l. revert n.
  induction fuel as [|fuel IH]; intros n Hl Hmax; [lia|].
  rewrite flags_loop_step, ptr_add_of_nat, match_end_truthy,
    alphanumeric_char_spec, truthy_c_bool.
  rewrite anychar_spec by assumption.
  destruct (cptr_cases (ptr_add_nat input n))
    as [[Hd Hs]|(c & r & Hp & Hnul & Hs)].
  - rewrite Hd, Hs. cbn. rewrite Nat.add_0_r. reflexivity.
  - rewrite Hs in *. rewrite Hp. cbn [deref forallb List.length] in *.
    destruct (Ascii.eqb_spec c NUL) as [|_]; [contradiction|]. cbn [negb].
    unfold is_flag at 1.
    destruct (is_alphanumeric c); [|reflexivity].
    cbn [bind andb]. rewrite truthy_c_bool.
    destruct (accepted allowed c); [|reflexivity].
    rewrite uintptr_succ by lia.
    pose proof (IH (S n)) as IH'.
    rewrite (ptr_add_nat_step _ _ _ _ Hp) in IH'.
    rewrite IH' by lia.
    replace (S n + List.length (cstring r))%nat
      with (n + S (List.length (cstring r)))%nat by lia.
    reflexivity.
Qed.

(** What [clam_match_posix_flags] returns: the length of the input when it is
    a dash followed by one or more flags, else 0. *)
Lemma posix_flags_spec (fuel : nat) (input : cptr) (allowed : option cptr) :
  valid_read_string input ->
  covers fuel input ->
  valid_read_string_or_null allowed ->
  covers_or_null fuel allowed ->
  clam_match_posix_flags fuel input allowed =
  Some (match cstring input with
        | c0 :: c1 :: rest =>
            if Ascii.eqb c0 "-" && forallb (is_flag allowed) (c1 :: rest)
            then Z.of_nat (strlen input) else 0
        | _ => 0
        end).
Proof.
  intros Hv Hf Hva Hfa. unfold clam_match_posix_flags. cbn zeta.
  unfold clam_match_char. rewrite truthy_c_bool, index_0.
  destruct (cstring input) as [|c0 l] eqn:E.
  - rewrite (deref_empty _ E). reflexivity.
  - apply deref_cstring in E as E'. destruct E' as (-> & _ & El).
    destruct (Ascii.eqb c0 "-"); [|destruct l; reflexivity].
    cbn [negb c_bool andb]. change 1 with (Z.of_nat 1) at 1.
    unfold valid_read_string, covers, strlen in Hv, Hf. rewrite E in Hv, Hf.
    cbn [List.length] in Hv, Hf.
    rewrite flags_loop_spec; try assumption;
      change (ptr_add_nat input 1) with (ptr_add input 1);
      rewrite El; [|lia|lia].
    unfold strlen. rewrite E. cbn [List.length].
    destruct l as [|c1 rest]; [reflexivity|].
    destruct (forallb (is_flag allowed) (c1 :: rest)); [|reflexivity].
    cbn zeta. apply f_equal. cbn [List.length].
    destruct (Z.ltb_spec 1 (Z.of_nat (1 + S (List.length rest)))); lia.
Qed.

(** What [clam_match_posix_terminate_options] returns. *)
Lemma posix_terminate_options_spec (fuel : nat) (input : cptr) :
  valid_read_string input ->
  covers fuel input ->
  clam_match_posix_terminate_options fuel input =
  Some (if list_eq_dec ascii_dec (cstring input) ["-"; "-"]%char
        then 2 else 0).
Proof.
  intros Hv Hf. unfold clam_match_posix_terminate_options.
  rewrite chars_to_end_spec by assumption. reflexivity.
Qed.

(** * The claims *)

(** ** Basic character matchers *)

(** C1, as stated, fails for the terminator character: on the empty string
    [clam_match_char] asked for the terminator returns 1, although the
    string has no first character. *)
Lemma clam_match_char_terminator_on_empty :
  clam_match_char ""%string NUL = 1
  /\ ~ (exists l, cstring ""%string = NUL :: l).
Proof.
  split; [reflexivity|]. intros [l H]. discriminate.
Qed.

(** C1 (amended): [clam_match_char(s, c)] returns 1 or 0, and returns 1
    exactly when the character read at [s[0]] equals [c]: for [c] other than
    the terminator, when [s] is non-empty and its first character equals
    [c]; for [c] the terminator, when [s] is empty. *)
Theorem clam_match_char_first_character (s : cptr) (c : ascii) :
  (clam_match_char s c = 1 \/ clam_match_char s c = 0)
  /\ (clam_match_char s c = 1 <->
      if Ascii.eqb c NUL then cstring s = []
      else exists l, cstring s = c :: l).
Proof.
  unfold clam_match_char. rewrite index_0.
  split; [destruct (Ascii.eqb (deref s) c); auto|].
  destruct (cptr_cases s) as [[Hd Hs]|(c0 & r & -> & Hc & Hs)].
  - rewrite Hd, Hs, (Ascii.eqb_sym NUL c).
    destruct (Ascii.eqb_spec c NUL) as [->|Hne].
    + split; reflexivity.
    + split; [discriminate|]. intros [l H]. discriminate.
  - rewrite Hs. cbn [deref].
    destruct (Ascii.eqb_spec c NUL) as [->|Hne].
    + destruct (Ascii.eqb_spec c0 NUL); [contradiction|].
      split; discriminate.
    + destruct (Ascii.eqb_spec c0 c) as [->|Hne'].
      * split; [eauto|reflexivity].
      * split; [discriminate|]. intros [l H]. congruence.
Qed.

(** C2: [clam_match_end(s)] returns 1 when [s] is the empty string and 0
    when it is not; its success is the value 1, never 0, although it
    consumes nothing. *)
Theorem clam_match_end_empty_iff (s : cptr) :
  clam_match_end s = match cstring s with [] => 1 | _ :: _ => 0 end
  /\ (clam_match_end s = 1 <-> cstring s = [])
  /\ (clam_match_end s = 0 <-> cstring s <> []).
Proof.
  destruct (cstring s) as [|c l] eqn:E.
  - rewrite (match_end_empty _ E).
    split; [reflexivity|]. split; split; congruence.
  - rewrite match_end_nonempty by congruence.
    split; [reflexivity|]. split; split; congruence.
Qed.

(** C3: [clam_match_anychar(s, set)] returns 0 whenever [s] is empty; for a
    non-empty [s] it returns 1 when [set] is the [NULL] wildcard, and when
    [set] is a string it returns 1 exactly when some character of [set]
    equals the first character of [s], and 0 otherwise.  The wildcard and the
    empty set differ: on a non-empty [s] the first answers 1 and the second
    0. *)
Theorem clam_match_anychar_allow_set (fuel : nat) (s : cptr)
    (set : option cptr) :
  valid_read_string_or_null set ->
  covers_or_null fuel set ->
  exists r,
    clam_match_anychar fuel s set = Some r
    /\ (r = 1 \/ r = 0)
    /\ (cstring s = [] -> r = 0)
    /\ (cstring s <> [] -> set = None -> r = 1)
    /\ (forall chars, cstring s <> [] -> set = Some chars ->
          (r = 1 <-> In (deref s) (cstring chars)))
    /\ (cstring s <> [] ->
          clam_match_anychar fuel s None = Some 1
          /\ clam_match_anychar (S fuel) s (Some ""%string) = Some 0).
Proof.
  intros Hv Hf. rewrite anychar_spec by assumption.
  eexists. split; [reflexivity|].
  destruct (cstring s) as [|c l] eqn:E.
  - split; [auto|]. split; [reflexivity|].
    split; [congruence|]. split; [congruence|congruence].
  - apply deref_cstring in E as E'. destruct E' as (Hd & _ & _).
    split; [destruct (accepted set c); auto|].
    split; [discriminate|].
    split; [intros _ ->; reflexivity|].
    split.
    + intros chars _ ->. cbn [accepted]. unfold in_set. rewrite Hd.
      destruct (existsb (Ascii.eqb c) (cstring chars)) eqn:Ex.
      * split; [|reflexivity]. intros _.
        apply existsb_exists in Ex as (x & Hin & Hx).
        apply Ascii.eqb_eq in Hx as ->. exact Hin.
      * split; [discriminate|]. intros Hin. exfalso.
        assert (existsb (Ascii.eqb c) (cstring chars) = true) as Ht
          by (apply existsb_exists; exists c; split;
              [assumption|apply Ascii.eqb_refl]).
        congruence.
    + intros _. split.
      * rewrite anychar_spec by exact I. rewrite E. reflexivity.
      * rewrite anychar_spec; [rewrite E; reflexivity| |];
          vm_compute; [discriminate|lia].
Qed.

Lemma clam_match_anychar_allow_set_witness :
  valid_read_string_or_null (Some "aA123"%string)
  /\ covers_or_null 6 (Some "aA123"%string)
  /\ clam_match_anychar 6 "A"%string (Some "aA123"%string) = Some 1
  /\ clam_match_anychar 6 "A"%string None = Some 1
  /\ clam_match_anychar 7 "A"%string (Some ""%string) = Some 0.
Proof.
  assert (valid_read_string_or_null (Some "aA123"%string)) as Hv
    by by_evaluation.
  assert (covers_or_null 6 (Some "aA123"%string)) as Hf by by_evaluation.
  split; [exact Hv|]. split; [exact Hf|].
  destruct (clam_match_anychar_allow_set 6 "A"%string (Some "aA123"%string)
              Hv Hf) as (r & Hr & _ & _ & _ & Hin & Hdistinct).
  split; [|apply Hdistinct; discriminate].
  rewrite Hr. f_equal.
  apply (Hin "aA123"%string); [discriminate|reflexivity|].
  simpl. auto.
Defined.

(** ** Results as prefix lengths *)

(** A classifier of the first character that rejects the terminator never
    answers 1 on the empty string. *)
Lemma classifier_within_input (f : ascii -> bool) (s : cptr) :
  f NUL = false -> 0 <= c_bool (f (deref s)) <= Z.of_nat (strlen s).
Proof.
  intros Hf. unfold strlen.
  destruct (cptr_cases s) as [[Hd Hs]|(c & r & -> & Hc & Hs)].
  - rewrite Hd, Hs, Hf. simpl. lia.
  - rewrite Hs. cbn [List.length deref]. destruct (f c); cbn [c_bool]; lia.
Qed.

Lemma sign_and_digits_within (l : list ascii) :
  (sign_length l + digit_run (skipn (sign_length l) l) <= List.length l)%nat.
Proof.
  destruct l as [|c l]; [simpl; lia|]. cbn [sign_length].
  destruct (Ascii.eqb c "+" || Ascii.eqb c "-").
  - cbn [skipn List.length]. pose proof (digit_run_le l). lia.
  - cbn [skipn]. pose proof (digit_run_le (c :: l)). lia.
Qed.

(** C4, as stated, fails for [clam_match_char] asked for the terminator: on
    the empty string it returns 1, which exceeds the length 0 of the input,
    and it is a matcher other than [clam_match_end]. *)
Lemma clam_match_char_terminator_exceeds_empty_input :
  match_char NUL <> match_end
  /\ valid_read_string ""%string
  /\ requires (match_char NUL)
  /\ run 0 (match_char NUL) ""%string = Some 1
  /\ ~ (1 <= Z.of_nat (strlen ""%string)).
Proof.
  split; [discriminate|]. split; [vm_compute; discriminate|].
  split; [exact I|]. split; [reflexivity|]. simpl. lia.
Qed.

(** C4 (amended): for every matcher other than [clam_match_end] and other
    than [clam_match_char] asked for the terminator character, and for every
    input and parameters within the matcher's contract, the matcher returns
    a result that never exceeds the length of the input. *)
Theorem matcher_result_within_input (fuel : nat) (m : matcher) (input : cptr) :
  m <> match_end ->
  m <> match_char NUL ->
  valid_read_string input ->
  requires m ->
  covers fuel input ->
  covers_params fuel m ->
  exists r,
    run fuel m input = Some r /\ 0 <= r <= Z.of_nat (strlen input).
Proof.
  intros Hend Hnul Hv Hreq Hf Hp.
  destruct m; cbn [run requires covers_params] in *.
  - (* clam_match_char *)
    eexists. split; [reflexivity|]. unfold clam_match_char.
    rewrite index_0. rewrite Ascii.eqb_sym.
    apply (classifier_within_input (Ascii.eqb c)).
    destruct (Ascii.eqb_spec c NUL); [congruence|reflexivity].
  - congruence.
  - (* clam_match_anychar *)
    rewrite anychar_spec by assumption. eexists. split; [reflexivity|].
    unfold strlen. destruct (cstring input) as [|c l]; [simpl; lia|].
    cbn [List.length]. destruct (accepted chars c); cbn [c_bool]; lia.
  - (* clam_match_at_least_n_chars *)
    rewrite at_least_n_chars_spec by assumption. eexists.
    split; [reflexivity|]. cbn zeta.
    pose proof (common_prefix_len_le_l (cstring input) (cstring chars)).
    unfold strlen. destruct (Z.leb_spec n (Z.of_nat
      (common_prefix_len (cstring input) (cstring chars)))); lia.
  - (* clam_match_chars *)
    rewrite chars_spec by assumption. eexists. split; [reflexivity|].
    destruct (is_prefix (cstring chars) (cstring input)) eqn:E; [|lia].
    apply is_prefix_length in E. unfold strlen. lia.
  - (* clam_match_chars_to_end *)
    rewrite chars_to_end_spec by assumption. eexists. split; [reflexivity|].
    destruct (list_eq_dec ascii_dec (cstring input) (cstring chars)) as [E|_];
      [|lia].
    unfold strlen. rewrite E. lia.
  - (* clam_match_numeric10_char *)
    eexists. split; [reflexivity|]. rewrite numeric10_char_spec.
    now apply classifier_within_input.
  - (* clam_match_unsigned_integer10 *)
    rewrite unsigned_integer10_spec by assumption. eexists.
    split; [reflexivity|]. pose proof (digit_run_le (cstring input)).
    unfold strlen. lia.
  - (* clam_match_signed_integer10 *)
    rewrite signed_integer10_spec by assumption. eexists.
    split; [reflexivity|]. cbn zeta.
    pose proof (sign_and_digits_within (cstring input)). unfold strlen.
    destruct (_ =? 0)%nat; lia.
  - (* clam_match_numeric16_char *)
    eexists. split; [reflexivity|]. unfold clam_match_numeric16_char.
    rewrite index_0.
    now apply (classifier_within_input (fun c =>
      (char_code "0" <=? char_code c) && (char_code c <=? char_code "9")
      || (char_code "A" <=? char_code c) && (char_code c <=? char_code "F")
      || (char_code "a" <=? char_code c) && (char_code c <=? char_code "f"))).
  - (* clam_match_uppercase_char *)
    eexists. split; [reflexivity|]. unfold clam_match_uppercase_char.
    rewrite index_0. now apply (classifier_within_input is_upper).
  - (* clam_match_lowercase_char *)
    eexists. split; [reflexivity|]. unfold clam_match_lowercase_char.
    rewrite index_0. now apply (classifier_within_input is_lower).
  - (* clam_match_alpha_char *)
    eexists. split; [reflexivity|]. unfold clam_match_alpha_char,
      clam_match_lowercase_char, clam_match_uppercase_char.
    rewrite !truthy_c_bool, index_0.
    now apply (classifier_within_input (fun c => is_lower c || is_upper c)).
  - (* clam_match_alphanumeric_char *)
    eexists. split; [reflexivity|]. rewrite alphanumeric_char_spec.
    now apply classifier_within_input.
  - (* clam_match_posix_option *)
    rewrite posix_option_spec by assumption. eexists. split; [reflexivity|].
    unfold strlen.
    destruct (cstring input) as [|c0 [|c1 l]]; cbn [List.length]; try lia.
    destruct (_ && _); lia.
  - (* clam_match_posix_long_option *)
    rewrite posix_long_option_spec by assumption. eexists.
    split; [reflexivity|]. unfold strlen.
    destruct (cstring input) as [|c0 l]; [simpl; lia|].
    destruct (Ascii.eqb c0 "-" && is_prefix (cstring option) l) eqn:E;
      [|lia].
    apply andb_true_iff in E as [_ E]. apply is_prefix_length in E.
    cbn [List.length]. destruct (_ =? 0)%nat; lia.
  - (* clam_match_posix_flags *)
    rewrite posix_flags_spec by assumption. eexists. split; [reflexivity|].
    destruct (cstring input) as [|c0 [|c1 l]]; try lia.
    destruct (_ && _); lia.
  - (* clam_match_posix_terminate_options *)
    rewrite posix_terminate_options_spec by assumption. eexists.
    split; [reflexivity|].
    destruct (list_eq_dec ascii_dec (cstring input) ["-"; "-"]%char) as [E|_];
      [|lia].
    unfold strlen. rewrite E. cbn [List.length]. lia.
  - (* clam_match_windows_switch *)
    rewrite windows_switch_spec by assumption. eexists. split; [reflexivity|].
    unfold strlen.
    destruct (cstring input) as [|c0 [|c1 l]]; cbn [List.length]; try lia.
    destruct (_ && _); lia.
  - (* clam_match_windows_long_switch *)
    rewrite windows_long_switch_spec by assumption. eexists.
    split; [reflexivity|]. unfold strlen.
    destruct (cstring input) as [|c0 l]; [simpl; lia|].
    destruct (Ascii.eqb c0 "/" && is_prefix (cstring switch_s) l) eqn:E;
      [|lia].
    apply andb_true_iff in E as [_ E]. apply is_prefix_length in E.
    cbn [List.length]. destruct (_ =? 0)%nat; lia.
Qed.

Lemma matcher_result_within_input_witness :
  match_posix_flags (Some "dacb1"%string) <> match_end
  /\ match_posix_flags (Some "dacb1"%string) <> match_char NUL
  /\ valid_read_string "-abcd1"%string
  /\ requires (match_posix_flags (Some "dacb1"%string))
  /\ covers 7 "-abcd1"%string
  /\ covers_params 7 (match_posix_flags (Some "dacb1"%string))
  /\ exists r,
       run 7 (match_posix_flags (Some "dacb1"%string)) "-abcd1"%string = Some r
       /\ 0 <= r <= Z.of_nat (strlen "-abcd1"%string).
Proof.
  assert (valid_read_string "-abcd1"%string) as Hv by by_evaluation.
  assert (requires (match_posix_flags (Some "dacb1"%string))) as Hr
    by (vm_compute; discriminate).
  assert (covers 7 "-abcd1"%string) as Hf by by_evaluation.
  assert (covers_params 7 (match_posix_flags (Some "dacb1"%string))) as Hp
    by (vm_compute; lia).
  repeat (split; [first [discriminate | assumption]|]).
  apply matcher_result_within_input;
    first [discriminate | assumption].
Defined.

(** ** POSIX long options *)

(** C5, as stated, fails where [clam_match_chars] finds no match: for the
    input "-" and the empty option literal the result is 0, not
    [1 + clam_match_chars(input + 1, option)], which is 1. *)
Lemma clam_match_posix_long_option_not_one_plus :
  index "-"%string 0 = "-"%char
  /\ clam_match_posix_long_option 2 "-"%string ""%string = Some 0
  /\ (r <- clam_match_chars 2 (ptr_add "-"%string 1) ""%string ;;
      ret (1 + r)) = Some 1.
Proof. repeat split. Qed.

(** C5 (amended): [clam_match_posix_long_option(input, option)] returns 0 if
    the input does not start with ['-'] or if
    [clam_match_chars(input + 1, option)] is 0, and otherwise returns
    [1 + clam_match_chars(input + 1, option)]; in particular it is 0 when the
    option literal is not a prefix of the input past the dash or when the
    option literal is empty. *)
Theorem clam_match_posix_long_option_dash_then_chars (fuel : nat)
    (input option : cptr) :
  valid_read_string input ->
  covers fuel input ->
  exists r,
    clam_match_posix_long_option fuel input option = Some r
    /\ (index input 0 <> "-"%char -> r = 0)
    /\ (index input 0 = "-"%char ->
        exists k,
          clam_match_chars fuel (ptr_add input 1) option = Some k
          /\ r = (if k =? 0 then 0 else 1 + k)
          /\ (is_prefix (cstring option) (cstring (ptr_add input 1)) = false
              -> r = 0)
          /\ (cstring option = [] -> r = 0)).
Proof.
  intros Hv Hf. rewrite posix_long_option_spec by assumption.
  eexists. split; [reflexivity|]. rewrite index_0.
  destruct (cstring input) as [|c0 l] eqn:E.
  - rewrite (deref_empty _ E). split; [reflexivity|]. discriminate.
  - destruct (tail_string fuel _ _ _ E Hv Hf) as [Hv' Hf'].
    apply deref_cstring in E as (-> & _ & El).
    split.
    + intros Hne. destruct (Ascii.eqb_spec c0 "-"); [contradiction|].
      reflexivity.
    + intros ->. rewrite chars_spec by assumption. rewrite El.
      eexists. split; [reflexivity|]. cbn [Ascii.eqb Bool.eqb andb].
      unfold strlen.
      destruct (is_prefix (cstring option) l); cbn [Z.eqb].
      * split; [|split; [discriminate|intros ->; reflexivity]].
        destruct (cstring option); cbn [List.length Nat.eqb]; [reflexivity|].
        destruct (Z.eqb_spec (Z.of_nat (S (List.length l0))) 0);
          [lia|reflexivity].
      * repeat split.
Qed.

Lemma clam_match_posix_long_option_dash_then_chars_witness :
  valid_read_string "--hellop"%string
  /\ covers 9 "--hellop"%string
  /\ clam_match_posix_long_option 9 "--hellop"%string "-hello"%string = Some 7
  /\ clam_match_posix_long_option 9 "--hellop"%string "-help"%string = Some 0.
Proof.
  assert (valid_read_string "--hellop"%string) as Hv by by_evaluation.
  assert (covers 9 "--hellop"%string) as Hf by by_evaluation.
  split; [exact Hv|]. split; [exact Hf|]. split.
  - destruct (clam_match_posix_long_option_dash_then_chars 9
                "--hellop"%string "-hello"%string Hv Hf)
      as (r & -> & _ & Hdash).
    destruct (Hdash eq_refl) as (k & Hk & -> & _).
    injection Hk as <-. reflexivity.
  - destruct (clam_match_posix_long_option_dash_then_chars 9
                "--hellop"%string "-help"%string Hv Hf)
      as (r & -> & _ & Hdash).
    destruct (Hdash eq_refl) as (k & _ & _ & Hnot & _).
    rewrite Hnot; reflexivity.
Defined.

(** ** String matchers *)

(** C6: with [i] the number of equal leading characters of [input] and
    [chars], [clam_match_at_least_n_chars(input, n, chars)] returns [i] if
    [i >= n] and 0 otherwise; [i] is bounded by the shorter of the two
    strings. *)
Theorem clam_match_at_least_n_chars_common_prefix (fuel : nat) (input : cptr)
    (n : Z) (chars : cptr) :
  valid_read_string input ->
  covers fuel input ->
  let i := common_prefix_len (cstring input) (cstring chars) in
  clam_match_at_least_n_chars fuel input n chars =
  Some (if Z.of_nat i >=? n then Z.of_nat i else 0)
  /\ (i <= Nat.min (strlen input) (strlen chars))%nat.
Proof.
  intros Hv Hf i. subst i. split.
  - rewrite at_least_n_chars_spec by assumption. cbn zeta.
    now rewrite Z.geb_leb.
  - pose proof (common_prefix_len_le_l (cstring input) (cstring chars)).
    pose proof (common_prefix_len_le_r (cstring input) (cstring chars)).
    unfold strlen. lia.
Qed.

Lemma clam_match_at_least_n_chars_common_prefix_witness :
  valid_read_string "ABC"%string
  /\ valid_read_string "ABQ"%string
  /\ covers 4 "ABC"%string
  /\ covers 4 "ABQ"%string
  /\ clam_match_at_least_n_chars 4 "ABC"%string 2 "ABC"%string = Some 3
  /\ clam_match_at_least_n_chars 4 "ABQ"%string 2 "ABC"%string = Some 2
  /\ clam_match_at_least_n_chars 4 "ABQ"%string 3 "ABC"%string = Some 0.
Proof.
  assert (valid_read_string "ABC"%string) as Hv by by_evaluation.
  assert (valid_read_string "ABQ"%string) as Hv' by by_evaluation.
  assert (covers 4 "ABC"%string) as Hf by by_evaluation.
  assert (covers 4 "ABQ"%string) as Hf' by by_evaluation.
  repeat (split; [assumption|]).
  split; [|split].
  - exact (proj1 (clam_match_at_least_n_chars_common_prefix 4 "ABC"%string 2
                    "ABC"%string Hv Hf)).
  - exact (proj1 (clam_match_at_least_n_chars_common_prefix 4 "ABQ"%string 2
                    "ABC"%string Hv' Hf')).
  - exact (proj1 (clam_match_at_least_n_chars_common_prefix 4 "ABQ"%string 3
                    "ABC"%string Hv' Hf')).
Defined.

(** C7: [clam_match_signed_integer10] consumes at most one leading ['+'] or
    ['-'], then requires at least one base-10 digit: with [s] the length of
    the optional sign and [d] the length of the maximal run of digits after
    it, the result is [s + d] when [d] is not 0, and 0 when no digit follows
    the optional sign. *)
Theorem clam_match_signed_integer10_sign_then_digits (fuel : nat)
    (input : cptr) :
  valid_read_string input ->
  covers fuel input ->
  covers fuel clam__signs ->
  let s := sign_length (cstring input) in
  let d := digit_run (skipn s (cstring input)) in
  (s <= 1)%nat
  /\ clam_match_signed_integer10 fuel input =
     Some (if (d =? 0)%nat then 0 else Z.of_nat s + Z.of_nat d).
Proof.
  intros Hv Hf Hs s d. subst s d. split.
  - destruct (cstring input) as [|c l]; cbn [sign_length]; [lia|].
    destruct (_ || _); lia.
  - rewrite signed_integer10_spec by assumption. cbn zeta.
    destruct (_ =? 0)%nat; [reflexivity|]. now rewrite Nat2Z.inj_add.
Qed.

Lemma clam_match_signed_integer10_sign_then_digits_witness :
  clam_match_signed_integer10 8 "1234a"%string = Some 4
  /\ clam_match_signed_integer10 8 "+1234a"%string = Some 5
  /\ clam_match_signed_integer10 8 "-1234a"%string = Some 5
  /\ clam_match_signed_integer10 8 "++1234a"%string = Some 0
  /\ clam_match_signed_integer10 8 "+"%string = Some 0
  /\ clam_match_signed_integer10 8 "-"%string = Some 0
  /\ clam_match_signed_integer10 8 ""%string = Some 0.
Proof.
  repeat apply conj;
    match goal with
    | |- clam_match_signed_integer10 ?fuel ?input = _ =>
        exact (proj2 (clam_match_signed_integer10_sign_then_digits fuel input
                        ltac:(by_evaluation) ltac:(by_evaluation)
                        ltac:(by_evaluation)))
    end.
Defined.

(** ** POSIX options, flags and the terminator *)

(** C8: [clam_match_posix_option] returns 0 or exactly 2; it returns 2 if
    and only if the input starts with ['-'] followed by an alphanumeric
    character accepted by the allowed set (any alphanumeric character when
    the set is the [NULL] wildcard); and the result is the same for every
    input with the same first two characters. *)
Theorem clam_match_posix_option_two_characters (fuel : nat) (input : cptr)
    (allowed : option cptr) :
  valid_read_string_or_null allowed ->
  covers_or_null fuel allowed ->
  exists r,
    clam_match_posix_option fuel input allowed = Some r
    /\ (r = 0 \/ r = 2)
    /\ (r = 2 <->
        exists c rest,
          cstring input = "-"%char :: c :: rest
          /\ is_alphanumeric c = true
          /\ accepted allowed c = true)
    /\ (forall input',
          firstn 2 (cstring input') = firstn 2 (cstring input) ->
          clam_match_posix_option fuel input' allowed = Some r).
Proof.
  intros Hv Hf. rewrite posix_option_spec by assumption.
  eexists. split; [reflexivity|]. split; [|split].
  - destruct (cstring input) as [|c0 [|c1 l]]; auto.
    destruct (_ && _); auto.
  - destruct (cstring input) as [|c0 [|c1 l]].
    + split; [discriminate|]. intros (c & rest & H & _). discriminate.
    + split; [discriminate|]. intros (c & rest & H & _). discriminate.
    + destruct (Ascii.eqb_spec c0 "-") as [->|Hne]; cbn [andb].
      * destruct (is_alphanumeric c1) eqn:Ea, (accepted allowed c1) eqn:Eb;
          cbn [andb];
          (split;
           [first [discriminate | intros _; exists c1, l; auto]
           |first [reflexivity
                  | intros (c & rest & H & Ha & Hb);
                    injection H as <- _; congruence]]).
      * split; [discriminate|]. intros (c & rest & H & _). congruence.
  - intros input' Hsame. rewrite posix_option_spec by assumption.
    destruct (cstring input) as [|c0 [|c1 l]],
      (cstring input') as [|c0' [|c1' l']];
      cbn [firstn] in Hsame; try discriminate; try reflexivity.
    injection Hsame as -> ->. reflexivity.
Qed.

Lemma clam_match_posix_option_two_characters_witness :
  valid_read_string_or_null (Some "dacb1"%string)
  /\ covers_or_null 6 (Some "dacb1"%string)
  /\ clam_match_posix_option 6 "-a"%string (Some "dacb1"%string) = Some 2
  /\ clam_match_posix_option 6 "-azrf"%string (Some "dacb1"%string) = Some 2.
Proof.
  assert (valid_read_string_or_null (Some "dacb1"%string)) as Hv
    by by_evaluation.
  assert (covers_or_null 6 (Some "dacb1"%string)) as Hf by by_evaluation.
  split; [exact Hv|]. split; [exact Hf|].
  destruct (clam_match_posix_option_two_characters 6 "-a"%string
              (Some "dacb1"%string) Hv Hf) as (r & Hr & _ & Htwo & Hsame).
  assert (r = 2) as ->
    by (apply Htwo; exists "a"%char, []; repeat split).
  split; [exact Hr|]. apply Hsame. reflexivity.
Defined.

(** C9: [clam_match_posix_terminate_options(input)] returns 2 if and only if
    the input is exactly the two-character string "--", and 0 in every other
    case; it is [clam_match_chars_to_end(input, "--")]. *)
Theorem clam_match_posix_terminate_options_exact (fuel : nat) (input : cptr) :
  valid_read_string input ->
  covers fuel input ->
  exists r,
    clam_match_posix_terminate_options fuel input = Some r
    /\ (r = 2 <-> cstring input = ["-"; "-"]%char)
    /\ (r = 0 <-> cstring input <> ["-"; "-"]%char)
    /\ clam_match_chars_to_end fuel input "--"%string = Some r.
Proof.
  intros Hv Hf.
  change (clam_match_chars_to_end fuel input "--"%string)
    with (clam_match_posix_terminate_options fuel input).
  rewrite posix_terminate_options_spec by assumption.
  eexists. split; [reflexivity|].
  destruct (list_eq_dec ascii_dec (cstring input) ["-"; "-"]%char) as [E|E].
  - split; [tauto|]. split; [split; [discriminate|contradiction]|reflexivity].
  - split; [split; [discriminate|contradiction]|].
    split; [tauto|reflexivity].
Qed.

Lemma clam_match_posix_terminate_options_exact_witness :
  clam_match_posix_terminate_options 5 "--"%string = Some 2
  /\ clam_match_posix_terminate_options 5 "--a"%string = Some 0
  /\ clam_match_posix_terminate_options 5 "b--a"%string = Some 0.
Proof.
  repeat apply conj;
    match goal with
    | |- clam_match_posix_terminate_options ?fuel ?input = Some ?v =>
        destruct (clam_match_posix_terminate_options_exact fuel input
                    ltac:(by_evaluation) ltac:(by_evaluation))
          as (r & -> & Htwo & Hzero & _);
        f_equal;
        first [apply Htwo; reflexivity | apply Hzero; discriminate]
    end.
Defined.

(** C10: whenever [clam_match_posix_flags] returns a non-zero result, the
    result is the full length of the input and at least 2, and the input is
    a ['-'] followed only by alphanumeric characters accepted by the allowed
    set: the flags matcher never matches an input with a trailer. *)
Theorem clam_match_posix_flags_whole_input (fuel : nat) (input : cptr)
    (allowed : option cptr) :
  valid_read_string input ->
  covers fuel input ->
  valid_read_string_or_null allowed ->
  covers_or_null fuel allowed ->
  exists r,
    clam_match_posix_flags fuel input allowed = Some r
    /\ (r <> 0 ->
        r = Z.of_nat (strlen input)
        /\ 2 <= r
        /\ exists rest,
             cstring input = "-"%char :: rest
             /\ Forall (fun c => is_alphanumeric c = true
                                 /\ accepted allowed c = true) rest).
Proof.
  intros Hv Hf Hva Hfa. rewrite posix_flags_spec by assumption.
  eexists. split; [reflexivity|]. unfold strlen.
  destruct (cstring input) as [|c0 [|c1 l]]; try congruence.
  destruct (Ascii.eqb_spec c0 "-") as [->|Hne]; cbn [andb]; [|congruence].
  destruct (forallb (is_flag allowed) (c1 :: l)) eqn:E; [|congruence].
  intros _. split; [reflexivity|]. split; [cbn [List.length]; lia|].
  exists (c1 :: l). split; [reflexivity|].
  rewrite forallb_forall in E. apply Forall_forall. intros c Hin.
  specialize (E c Hin). unfold is_flag in E.
  now apply andb_true_iff in E.
Qed.

Lemma clam_match_posix_flags_whole_input_witness :
  clam_match_posix_flags 7 "-abcd1"%string (Some "dacb1"%string) = Some 6
  /\ clam_match_posix_flags 7 "-abcd_"%string (Some "dacb"%string) = Some 0.
Proof.
  split.
  - destruct (clam_match_posix_flags_whole_input 7 "-abcd1"%string
                (Some "dacb1"%string) ltac:(by_evaluation) ltac:(by_evaluation)
                ltac:(by_evaluation) ltac:(by_evaluation)) as (r & Hr & Hnz).
    rewrite Hr. f_equal.
    assert (r <> 0) as Hr0
      by (intros ->; vm_compute in Hr; discriminate).
    destruct (Hnz Hr0) as (-> & _). reflexivity.
  - destruct (clam_match_posix_flags_whole_input 7 "-abcd_"%string
                (Some "dacb"%string) ltac:(by_evaluation) ltac:(by_evaluation)
                ltac:(by_evaluation) ltac:(by_evaluation)) as (r & Hr & Hnz).
    rewrite Hr. f_equal.
    destruct (Z.eq_dec r 0) as [E|E]; [exact E|].
    destruct (Hnz E) as (-> & _). vm_compute in Hr. discriminate.
Defined.

(** * Further properties of the matchers *)

(** ** Reading a string by index *)

Lemma deref_hd (p : cptr) : deref p = hd NUL (cstring p).
Proof.
  destruct (cptr_cases p) as [[Hd Hs]|(c & r & -> & _ & Hs)];
    rewrite Hs; [exact Hd|reflexivity].
Qed.

Lemma hd_skipn_nth (k : nat) (l : list ascii) :
  hd NUL (skipn k l) = nth k l NUL.
Proof.
  revert l. induction k as [|k IH]; intros [|x l]; try reflexivity.
  cbn [skipn nth]. apply IH.
Qed.

(** Up to and including the terminator, [p[k]] is the [k]-th character of
    the string at [p], the terminator standing at its length. *)
Lemma index_cstring (p : cptr) (k : nat) :
  (k <= strlen p)%nat -> index p (Z.of_nat k) = nth k (cstring p) NUL.
Proof.
  intros Hk. unfold index. rewrite ptr_add_of_nat, deref_hd.
  rewrite cstring_ptr_add_nat by assumption. apply hd_skipn_nth.
Qed.

Lemma is_prefix_split (a b : list ascii) :
  is_prefix a b = true -> b = a ++ skipn (List.length a) b.
Proof.
  revert b. induction a as [|x a IH]; intros [|y b]; simpl;
    try reflexivity; try discriminate.
  intros H. apply andb_true_iff in H as [Hxy H].
  apply Ascii.eqb_eq in Hxy as ->. f_equal. now apply IH.
Qed.

Lemma is_prefix_app (a rest : list ascii) : is_prefix a (a ++ rest) = true.
Proof.
  induction a as [|x a IH]; simpl; [reflexivity|].
  now rewrite Ascii.eqb_refl.
Qed.

Lemma digit_run_digits (l : list ascii) (k : nat) :
  (k < digit_run l)%nat -> is_digit (nth k l NUL) = true.
Proof.
  revert k. induction l as [|c l IH]; intros k Hk; simpl in Hk; [lia|].
  destruct (is_digit c) eqn:E; [|lia].
  destruct k as [|k]; [exact E|]. cbn [nth]. apply IH. lia.
Qed.

Lemma digit_run_stops (l : list ascii) :
  is_digit (nth (digit_run l) l NUL) = false.
Proof.
  induction l as [|c l IH]; simpl; [reflexivity|].
  destruct (is_digit c) eqn:E; [exact IH|exact E].
Qed.

Lemma common_prefix_len_comm (a b : list ascii) :
  common_prefix_len a b = common_prefix_len b a.
Proof.
  revert b. induction a as [|x a IH]; intros [|y b]; simpl; try reflexivity.
  rewrite (Ascii.eqb_sym y x). destruct (Ascii.eqb x y); [|reflexivity].
  now rewrite IH.
Qed.

(** ** Prefix and exact matching *)

(** X1: [clam_match_chars(input, chars)] returns 0 or the length of [chars];
    it is non-zero exactly when [chars] is non-empty and a prefix of the
    input, and then the string left at [input + result] is the input without
    that prefix. *)
Theorem clam_match_chars_consumes_prefix (fuel : nat) (input chars : cptr) :
  valid_read_string input ->
  covers fuel input ->
  exists r,
    clam_match_chars fuel input chars = Some r
    /\ (r = 0 \/ r = Z.of_nat (strlen chars))
    /\ (r <> 0 <->
        cstring chars <> []
        /\ exists rest, cstring input = cstring chars ++ rest)
    /\ (r <> 0 ->
        cstring input = cstring chars ++ cstring (ptr_add input r)).
Proof.
  intros Hv Hf. rewrite chars_spec by assumption.
  eexists. split; [reflexivity|]. unfold strlen.
  destruct (is_prefix (cstring chars) (cstring input)) eqn:E.
  - pose proof (is_prefix_length _ _ E) as Hle.
    split; [auto|]. split; [split|].
    + intros Hr. split.
      * intros Hnil. rewrite Hnil in Hr. apply Hr. reflexivity.
      * eexists. now apply is_prefix_split.
    + intros [Hne _]. destruct (cstring chars); [congruence|].
      cbn [List.length]. lia.
    + intros _. rewrite ptr_add_of_nat.
      rewrite cstring_ptr_add_nat by (unfold strlen; lia).
      now apply is_prefix_split.
  - split; [auto|]. split; [split|congruence].
    + congruence.
    + intros [_ [rest Hrest]]. rewrite Hrest, is_prefix_app in E.
      discriminate.
Qed.

Lemma clam_match_chars_consumes_prefix_witness :
  clam_match_chars 4 "AAZ"%string "AA"%string = Some 2
  /\ cstring "AAZ"%string = cstring "AA"%string ++ cstring "Z"%string.
Proof.
  destruct (clam_match_chars_consumes_prefix 4 "AAZ"%string "AA"%string
              ltac:(by_evaluation) ltac:(by_evaluation))
    as (r & Hr & _ & Hnz & Hrest).
  assert (r = 2) as -> by (vm_compute in Hr; congruence).
  apply conj; [exact Hr|]. apply Hrest. discriminate.
Defined.

(** X2: [clam_match_chars_to_end(input, chars)] is non-zero exactly when
    [chars] is non-empty and the input equals [chars]; the result is then the
    length of the whole input, and the end of the input stands at
    [input + result]. *)
Theorem clam_match_chars_to_end_whole_input (fuel : nat) (input chars : cptr) :
  valid_read_string input ->
  covers fuel input ->
  exists r,
    clam_match_chars_to_end fuel input chars = Some r
    /\ (r <> 0 <-> cstring chars <> [] /\ cstring input = cstring chars)
    /\ (r <> 0 ->
        r = Z.of_nat (strlen input)
        /\ clam_match_end (ptr_add input r) = 1).
Proof.
  intros Hv Hf. rewrite chars_to_end_spec by assumption.
  eexists. split; [reflexivity|]. unfold strlen.
  destruct (list_eq_dec ascii_dec (cstring input) (cstring chars)) as [E|E].
  - rewrite <- E. split; [split|].
    + intros Hr. split; [|reflexivity]. intros Hnil. rewrite Hnil in Hr.
      apply Hr. reflexivity.
    + intros [Hne _]. destruct (cstring input); [congruence|].
      cbn [List.length]. lia.
    + intros _. split; [reflexivity|]. apply match_end_empty.
      rewrite ptr_add_of_nat, cstring_ptr_add_nat by (unfold strlen; lia).
      apply skipn_all.
  - split; [split; [congruence|intros [_ H]; contradiction]|congruence].
Qed.

Lemma clam_match_chars_to_end_whole_input_witness :
  clam_match_chars_to_end 4 "AA"%string "AA"%string = Some 2
  /\ clam_match_end (ptr_add "AA"%string 2) = 1.
Proof.
  destruct (clam_match_chars_to_end_whole_input 4 "AA"%string "AA"%string
              ltac:(by_evaluation) ltac:(by_evaluation))
    as (r & Hr & _ & Hnz).
  assert (r = 2) as -> by (vm_compute in Hr; congruence).
  apply conj; [exact Hr|]. apply Hnz. discriminate.
Defined.

(** X3: [clam_match_chars_to_end] does not depend on which of its two
    strings is called the input: exchanging them gives the same result. *)
Theorem clam_match_chars_to_end_symmetric (fuel : nat) (input chars : cptr) :
  valid_read_string input ->
  valid_read_string chars ->
  covers fuel input ->
  covers fuel chars ->
  exists r,
    clam_match_chars_to_end fuel input chars = Some r
    /\ clam_match_chars_to_end fuel chars input = Some r.
Proof.
  intros Hv Hv' Hf Hf'. rewrite !chars_to_end_spec by assumption.
  eexists. split; [reflexivity|]. unfold strlen.
  destruct (list_eq_dec ascii_dec (cstring input) (cstring chars)) as [E|E],
    (list_eq_dec ascii_dec (cstring chars) (cstring input)) as [E'|E'];
    first [reflexivity | now rewrite E | now symmetry in E | now symmetry in E'].
Qed.

Lemma clam_match_chars_to_end_symmetric_witness :
  exists r,
    clam_match_chars_to_end 4 "AAZ"%string "AA"%string = Some r
    /\ clam_match_chars_to_end 4 "AA"%string "AAZ"%string = Some r.
Proof.
  exact (clam_match_chars_to_end_symmetric 4 "AAZ"%string "AA"%string
           ltac:(by_evaluation) ltac:(by_evaluation)
           ltac:(by_evaluation) ltac:(by_evaluation)).
Defined.

(** ** Numbers *)

(** X4: the result of [clam_match_unsigned_integer10] is a maximal run of
    digits: it never exceeds the length of the input, every character before
    it is matched by [clam_match_numeric10_char], and the character at it is
    not. *)
Theorem clam_match_unsigned_integer10_maximal_run (fuel : nat) (input : cptr) :
  valid_read_string input ->
  covers fuel input ->
  exists r,
    clam_match_unsigned_integer10 fuel input = Some r
    /\ 0 <= r <= Z.of_nat (strlen input)
    /\ (forall k, 0 <= k < r ->
          clam_match_numeric10_char (ptr_add input k) = 1)
    /\ clam_match_numeric10_char (ptr_add input r) = 0.
Proof.
  intros Hv Hf. rewrite unsigned_integer10_spec by assumption.
  eexists. split; [reflexivity|].
  pose proof (digit_run_le (cstring input)) as Hle. fold (strlen input) in Hle.
  split; [lia|]. split.
  - intros k Hk. rewrite numeric10_char_spec.
    rewrite <- (Z2Nat.id k) by lia. fold (index input (Z.of_nat (Z.to_nat k))).
    rewrite index_cstring by lia. rewrite digit_run_digits by lia.
    reflexivity.
  - rewrite numeric10_char_spec.
    fold (index input (Z.of_nat (digit_run (cstring input)))).
    rewrite index_cstring by lia. now rewrite digit_run_stops.
Qed.

Lemma clam_match_unsigned_integer10_maximal_run_witness :
  clam_match_unsigned_integer10 6 "1234a"%string = Some 4
  /\ clam_match_numeric10_char (ptr_add "1234a"%string 4) = 0.
Proof.
  destruct (clam_match_unsigned_integer10_maximal_run 6 "1234a"%string
              ltac:(by_evaluation) ltac:(by_evaluation))
    as (r & Hr & _ & _ & Hstop).
  assert (r = 4) as -> by (vm_compute in Hr; congruence).
  exact (conj Hr Hstop).
Defined.

(** X5: on an input that starts with a digit the signed matcher is the
    unsigned one: whenever [clam_match_unsigned_integer10] returns a
    non-zero result, [clam_match_signed_integer10] returns the same. *)
Theorem clam_match_signed_integer10_extends_unsigned (fuel : nat)
    (input : cptr) (r : Z) :
  valid_read_string input ->
  covers fuel input ->
  covers fuel clam__signs ->
  clam_match_unsigned_integer10 fuel input = Some r ->
  r <> 0 ->
  clam_match_signed_integer10 fuel input = Some r.
Proof.
  intros Hv Hf Hs Hu Hr.
  rewrite unsigned_integer10_spec in Hu by assumption. injection Hu as <-.
  rewrite signed_integer10_spec by assumption. cbn zeta.
  destruct (cstring input) as [|c l]; [contradiction Hr; reflexivity|].
  cbn [digit_run sign_length] in *.
  destruct (is_digit c) eqn:E; [|contradiction Hr; reflexivity].
  replace (Ascii.eqb c "+" || Ascii.eqb c "-") with false.
  - cbn [skipn digit_run]. rewrite E. reflexivity.
  - destruct (Ascii.eqb_spec c "+") as [->|_]; [discriminate|].
    destruct (Ascii.eqb_spec c "-") as [->|_]; [discriminate|reflexivity].
Qed.

Lemma clam_match_signed_integer10_extends_unsigned_witness :
  clam_match_signed_integer10 6 "1234a"%string = Some 4.
Proof.
  apply clam_match_signed_integer10_extends_unsigned;
    first [by_evaluation | reflexivity | discriminate].
Defined.

(** X6: a non-zero result of [clam_match_signed_integer10] ends a number:
    the last character consumed is a digit and the character that follows
    is not. *)
Theorem clam_match_signed_integer10_ends_in_digit (fuel : nat) (input : cptr) :
  valid_read_string input ->
  covers fuel input ->
  covers fuel clam__signs ->
  exists r,
    clam_match_signed_integer10 fuel input = Some r
    /\ (r <> 0 ->
        1 <= r <= Z.of_nat (strlen input)
        /\ clam_match_numeric10_char (ptr_add input (r - 1)) = 1
        /\ clam_match_numeric10_char (ptr_add input r) = 0).
Proof.
  intros Hv Hf Hs. rewrite signed_integer10_spec by assumption. cbn zeta.
  eexists. split; [reflexivity|].
  pose proof (sign_and_digits_within (cstring input)) as Hle.
  fold (strlen input) in Hle.
  set (s := sign_length (cstring input)) in *.
  set (d := digit_run (skipn s (cstring input))) in *.
  destruct (Nat.eqb_spec d 0) as [|Hd]; [congruence|]. intros _.
  assert (forall k, (k <= d)%nat ->
            nth (s + k) (cstring input) NUL
            = nth k (skipn s (cstring input)) NUL) as Hnth.
  { intros k _. rewrite <- !hd_skipn_nth, skipn_skipn.
    now rewrite (Nat.add_comm s k). }
  split; [lia|]. rewrite !numeric10_char_spec. split.
  - replace (Z.of_nat (s + d) - 1) with (Z.of_nat (s + (d - 1))) by lia.
    fold (index input (Z.of_nat (s + (d - 1)))).
    rewrite index_cstring by lia. rewrite Hnth by lia.
    rewrite digit_run_digits by (fold d; lia). reflexivity.
  - fold (index input (Z.of_nat (s + d))).
    rewrite index_cstring by lia. rewrite Hnth by lia.
    unfold d. now rewrite digit_run_stops.
Qed.

Lemma clam_match_signed_integer10_ends_in_digit_witness :
  clam_match_signed_integer10 7 "-1234a"%string = Some 5
  /\ clam_match_numeric10_char (ptr_add "-1234a"%string 4) = 1
  /\ clam_match_numeric10_char (ptr_add "-1234a"%string 5) = 0.
Proof.
  destruct (clam_match_signed_integer10_ends_in_digit 7 "-1234a"%string
              ltac:(by_evaluation) ltac:(by_evaluation) ltac:(by_evaluation))
    as (r & Hr & Hnz).
  assert (r = 5) as -> by (vm_compute in Hr; congruence).
  apply conj; [exact Hr|]. apply Hnz. discriminate.
Defined.

(** ** Minimum prefix matching *)

(** X7: [clam_match_at_least_n_chars] returns 0 whenever [n] exceeds the
    length of the input or the length of [chars]. *)
Theorem clam_match_at_least_n_chars_too_small (fuel : nat) (input : cptr)
    (n : Z) (chars : cptr) :
  valid_read_string input ->
  covers fuel input ->
  Z.of_nat (strlen input) < n \/ Z.of_nat (strlen chars) < n ->
  clam_match_at_least_n_chars fuel input n chars = Some 0.
Proof.
  intros Hv Hf Hn. rewrite at_least_n_chars_spec by assumption. cbn zeta.
  pose proof (common_prefix_len_le_l (cstring input) (cstring chars)).
  pose proof (common_prefix_len_le_r (cstring input) (cstring chars)).
  unfold strlen in Hn.
  destruct (Z.leb_spec n (Z.of_nat
    (common_prefix_len (cstring input) (cstring chars)))); [lia|reflexivity].
Qed.

Lemma clam_match_at_least_n_chars_too_small_witness :
  clam_match_at_least_n_chars 4 "ABC"%string 4 "ABCDE"%string = Some 0.
Proof.
  apply clam_match_at_least_n_chars_too_small;
    first [by_evaluation | left; vm_compute; reflexivity].
Defined.

(** X8: [clam_match_at_least_n_chars] treats its two strings alike:
    exchanging [input] and [chars] gives the same result. *)
Theorem clam_match_at_least_n_chars_symmetric (fuel : nat) (input : cptr)
    (n : Z) (chars : cptr) :
  valid_read_string input ->
  valid_read_string chars ->
  covers fuel input ->
  covers fuel chars ->
  exists r,
    clam_match_at_least_n_chars fuel input n chars = Some r
    /\ clam_match_at_least_n_chars fuel chars n input = Some r.
Proof.
  intros Hv Hv' Hf Hf'. rewrite !at_least_n_chars_spec by assumption.
  eexists. split; [reflexivity|].
  now rewrite (common_prefix_len_comm (cstring chars) (cstring input)).
Qed.

Lemma clam_match_at_least_n_chars_symmetric_witness :
  clam_match_at_least_n_chars 6 "ABC"%string 2 "ABQRS"%string = Some 2
  /\ clam_match_at_least_n_chars 6 "ABQRS"%string 2 "ABC"%string = Some 2.
Proof.
  destruct (clam_match_at_least_n_chars_symmetric 6 "ABC"%string 2
              "ABQRS"%string ltac:(by_evaluation) ltac:(by_evaluation)
              ltac:(by_evaluation) ltac:(by_evaluation)) as (r & Hr & Hr').
  assert (r = 2) as -> by (vm_compute in Hr; congruence).
  exact (conj Hr Hr').
Defined.

(** X9: where [clam_match_chars] matches, so does
    [clam_match_at_least_n_chars] for every minimum up to the length matched:
    a non-zero result [r] of [clam_match_chars(input, chars)] is the result
    of [clam_match_at_least_n_chars(input, n, chars)] for every [n <= r]. *)
Theorem clam_match_chars_then_at_least_n_chars (fuel : nat) (input : cptr)
    (n : Z) (chars : cptr) (r : Z) :
  valid_read_string input ->
  covers fuel input ->
  clam_match_chars fuel input chars = Some r ->
  r <> 0 ->
  n <= r ->
  clam_match_at_least_n_chars fuel input n chars = Some r.
Proof.
  intros Hv Hf Hc Hr Hn. rewrite chars_spec in Hc by assumption.
  rewrite at_least_n_chars_spec by assumption. cbn zeta.
  destruct (is_prefix (cstring chars) (cstring input)) eqn:E;
    [|congruence].
  rewrite (is_prefix_common_prefix_len _ _ E). injection Hc as <-.
  unfold strlen in *.
  destruct (Z.leb_spec n (Z.of_nat (List.length (cstring chars))));
    [reflexivity|lia].
Qed.

Lemma clam_match_chars_then_at_least_n_chars_witness :
  clam_match_at_least_n_chars 4 "AAZ"%string 1 "AA"%string = Some 2.
Proof.
  apply clam_match_chars_then_at_least_n_chars;
    first [by_evaluation | reflexivity | discriminate].
Defined.

(** ** Character classes *)

(** The six classifiers read the first character only. *)
Lemma classifiers_of_first_character (s : cptr) :
  clam_match_numeric10_char s
  = clam_match_numeric10_char (String (deref s) EmptyString)
  /\ clam_match_numeric16_char s
     = clam_match_numeric16_char (String (deref s) EmptyString)
  /\ clam_match_uppercase_char s
     = clam_match_uppercase_char (String (deref s) EmptyString)
  /\ clam_match_lowercase_char s
     = clam_match_lowercase_char (String (deref s) EmptyString)
  /\ clam_match_alpha_char s
     = clam_match_alpha_char (String (deref s) EmptyString)
  /\ clam_match_alphanumeric_char s
     = clam_match_alphanumeric_char (String (deref s) EmptyString).
Proof. repeat apply conj; reflexivity. Qed.

(** X10: on the empty string every classifier returns 0: the terminator is
    in none of the classes. *)
Theorem classifiers_reject_empty_input (s : cptr) :
  cstring s = [] ->
  clam_match_numeric10_char s = 0
  /\ clam_match_numeric16_char s = 0
  /\ clam_match_uppercase_char s = 0
  /\ clam_match_lowercase_char s = 0
  /\ clam_match_alpha_char s = 0
  /\ clam_match_alphanumeric_char s = 0.
Proof.
  intros H. apply deref_empty in H.
  destruct (classifiers_of_first_character s)
    as (-> & -> & -> & -> & -> & ->).
  rewrite H. repeat apply conj; reflexivity.
Qed.

Lemma classifiers_reject_empty_input_witness :
  clam_match_alphanumeric_char ""%string = 0.
Proof.
  apply (classifiers_reject_empty_input ""%string). reflexivity.
Defined.

(** X11: the classes of the classifiers: a digit, an upper-case letter and a
    lower-case letter are three disjoint classes, [clam_match_alpha_char]
    matches the two kinds of letters and [clam_match_alphanumeric_char] all
    three; every base-10 digit is a base-16 digit and every base-16 digit is
    alphanumeric. *)
Theorem classifiers_partition (s : cptr) :
  clam_match_alpha_char s
  = clam_match_uppercase_char s + clam_match_lowercase_char s
  /\ clam_match_alphanumeric_char s
     = clam_match_uppercase_char s + clam_match_lowercase_char s
       + clam_match_numeric10_char s
  /\ clam_match_numeric10_char s <= clam_match_numeric16_char s
  /\ clam_match_numeric16_char s <= clam_match_alphanumeric_char s
  /\ 0 <= clam_match_numeric10_char s
  /\ 0 <= clam_match_uppercase_char s
  /\ 0 <= clam_match_lowercase_char s
  /\ clam_match_alphanumeric_char s <= 1.
Proof.
  destruct (classifiers_of_first_character s)
    as (-> & -> & -> & -> & -> & ->).
  destruct (deref s) as [[] [] [] [] [] [] [] []];
    vm_compute; repeat apply conj; first [reflexivity | discriminate].
Qed.

(** ** Long options and switches *)

(** What a long matcher with delimiter [d] consumes, from its result as
    [long_spec] gives it. *)
Lemma long_result_consumes (d : ascii) (input name : cptr) (r : Z) :
  r = match cstring input with
      | c0 :: rest =>
          if Ascii.eqb c0 d && is_prefix (cstring name) rest
          then if (strlen name =? 0)%nat then 0
               else 1 + Z.of_nat (strlen name)
          else 0
      | [] => 0
      end ->
  (r = 0 \/ r = 1 + Z.of_nat (strlen name))
  /\ (r <> 0 <->
      cstring name <> []
      /\ exists rest, cstring input = d :: cstring name ++ rest)
  /\ (r <> 0 ->
      cstring input = d :: cstring name ++ cstring (ptr_add input r)).
Proof.
  intros ->. unfold strlen.
  destruct (cstring input) as [|c0 l] eqn:E.
  - split; [auto|]. split; [split|congruence]; [congruence|].
    intros [_ [rest H]]. discriminate.
  - destruct (Ascii.eqb_spec c0 d) as [->|Hne]; cbn [andb].
    + destruct (is_prefix (cstring name) l) eqn:Ep.
      * pose proof (is_prefix_length _ _ Ep) as Hle.
        destruct (cstring name) as [|x xs] eqn:En; cbn [List.length Nat.eqb].
        -- split; [auto|]. split; [split|congruence]; [congruence|].
           intros [H _]. congruence.
        -- split; [auto|]. split; [split|].
           ++ intros _. split; [discriminate|]. eexists. f_equal.
              now apply is_prefix_split.
           ++ intros _. lia.
           ++ intros _.
              replace (1 + Z.of_nat (S (List.length xs)))
                with (Z.of_nat (S (S (List.length xs)))) by lia.
              rewrite ptr_add_of_nat, cstring_ptr_add_nat
                by (unfold strlen; rewrite E; cbn [List.length] in *; lia).
              rewrite E. cbn [skipn]. f_equal.
              now apply (is_prefix_split (x :: xs)).
      * split; [auto|]. split; [split|congruence]; [congruence|].
        intros [_ [rest H]]. injection H as ->.
        rewrite is_prefix_app in Ep. discriminate.
    + split; [auto|]. split; [split|congruence]; [congruence|].
      intros [_ [rest H]]. congruence.
Qed.

(** X12: [clam_match_posix_long_option(input, option)] returns 0 or one more
    than the length of [option]; it is non-zero exactly when [option] is
    non-empty and the input is ['-'], then [option], then anything; and the
    string left at [input + result] is what follows the option. *)
Theorem clam_match_posix_long_option_consumes (fuel : nat)
    (input option : cptr) :
  valid_read_string input ->
  covers fuel input ->
  exists r,
    clam_match_posix_long_option fuel input option = Some r
    /\ (r = 0 \/ r = 1 + Z.of_nat (strlen option))
    /\ (r <> 0 <->
        cstring option <> []
        /\ exists rest,
             cstring input = "-"%char :: cstring option ++ rest)
    /\ (r <> 0 ->
        cstring input
        = "-"%char :: cstring option ++ cstring (ptr_add input r)).
Proof.
  intros Hv Hf. rewrite posix_long_option_spec by assumption.
  eexists. split; [reflexivity|]. now apply long_result_consumes.
Qed.

Lemma clam_match_posix_long_option_consumes_witness :
  clam_match_posix_long_option 9 "--link=x"%string "-link"%string = Some 6
  /\ cstring "--link=x"%string
     = "-"%char :: cstring "-link"%string ++ cstring "=x"%string.
Proof.
  destruct (clam_match_posix_long_option_consumes 9 "--link=x"%string
              "-link"%string ltac:(by_evaluation) ltac:(by_evaluation))
    as (r & Hr & _ & _ & Hrest).
  assert (r = 6) as -> by (vm_compute in Hr; congruence).
  apply conj; [exact Hr|]. apply Hrest. discriminate.
Defined.

(** X13: [clam_match_windows_long_switch(input, switch_s)] returns 0 or one
    more than the length of [switch_s]; it is non-zero exactly when
    [switch_s] is non-empty and the input is ['/'], then [switch_s], then
    anything; and the string left at [input + result] is what follows the
    switch. *)
Theorem clam_match_windows_long_switch_consumes (fuel : nat)
    (input switch_s : cptr) :
  valid_read_string input ->
  covers fuel input ->
  exists r,
    clam_match_windows_long_switch fuel input switch_s = Some r
    /\ (r = 0 \/ r = 1 + Z.of_nat (strlen switch_s))
    /\ (r <> 0 <->
        cstring switch_s <> []
        /\ exists rest,
             cstring input = "/"%char :: cstring switch_s ++ rest)
    /\ (r <> 0 ->
        cstring input
        = "/"%char :: cstring switch_s ++ cstring (ptr_add input r)).
Proof.
  intros Hv Hf. rewrite windows_long_switch_spec by assumption.
  eexists. split; [reflexivity|]. now apply long_result_consumes.
Qed.

Lemma clam_match_windows_long_switch_consumes_witness :
  clam_match_windows_long_switch 8 "/hellop"%string "hello"%string = Some 6
  /\ cstring "/hellop"%string
     = "/"%char :: cstring "hello"%string ++ cstring "p"%string.
Proof.
  destruct (clam_match_windows_long_switch_consumes 8 "/hellop"%string
              "hello"%string ltac:(by_evaluation) ltac:(by_evaluation))
    as (r & Hr & _ & _ & Hrest).
  assert (r = 6) as -> by (vm_compute in Hr; congruence).
  apply conj; [exact Hr|]. apply Hrest. discriminate.
Defined.

(** ** Switches, options and flags *)

(** X14: [clam_match_windows_switch] returns 0 or exactly 2; it returns 2 if
    and only if the input starts with ['/'] followed by an alphanumeric
    character accepted by the allowed set (any alphanumeric character when
    the set is [NULL]); the result is the same for every input with the same
    first two characters. *)
Theorem clam_match_windows_switch_two_characters (fuel : nat) (input : cptr)
    (allowed : option cptr) :
  valid_read_string_or_null allowed ->
  covers_or_null fuel allowed ->
  exists r,
    clam_match_windows_switch fuel input allowed = Some r
    /\ (r = 0 \/ r = 2)
    /\ (r = 2 <->
        exists c rest,
          cstring input = "/"%char :: c :: rest
          /\ is_alphanumeric c = true
          /\ accepted allowed c = true)
    /\ (forall input',
          firstn 2 (cstring input') = firstn 2 (cstring input) ->
          clam_match_windows_switch fuel input' allowed = Some r).
Proof.
  intros Hv Hf. rewrite windows_switch_spec by assumption.
  eexists. split; [reflexivity|]. split; [|split].
  - destruct (cstring input) as [|c0 [|c1 l]]; auto.
    destruct (_ && _); auto.
  - destruct (cstring input) as [|c0 [|c1 l]].
    + split; [discriminate|]. intros (c & rest & H & _). discriminate.
    + split; [discriminate|]. intros (c & rest & H & _). discriminate.
    + destruct (Ascii.eqb_spec c0 "/") as [->|Hne]; cbn [andb].
      * destruct (is_alphanumeric c1) eqn:Ea, (accepted allowed c1) eqn:Eb;
          cbn [andb];
          (split;
           [first [discriminate | intros _; exists c1, l; auto]
           |first [reflexivity
                  | intros (c & rest & H & Ha & Hb);
                    injection H as <- _; congruence]]).
      * split; [discriminate|]. intros (c & rest & H & _). congruence.
  - intros input' Hsame. rewrite windows_switch_spec by assumption.
    destruct (cstring input) as [|c0 [|c1 l]],
      (cstring input') as [|c0' [|c1' l']];
      cbn [firstn] in Hsame; try discriminate; try reflexivity.
    injection Hsame as -> ->. reflexivity.
Qed.

Lemma clam_match_windows_switch_two_characters_witness :
  clam_match_windows_switch 6 "/a"%string (Some "dacb1"%string) = Some 2
  /\ clam_match_windows_switch 6 "/azrf"%string (Some "dacb1"%string) = Some 2.
Proof.
  destruct (clam_match_windows_switch_two_characters 6 "/a"%string
              (Some "dacb1"%string) ltac:(by_evaluation) ltac:(by_evaluation))
    as (r & Hr & _ & Htwo & Hsame).
  assert (r = 2) as ->
    by (apply Htwo; exists "a"%char, []; repeat split).
  apply conj; [exact Hr|]. apply Hsame. reflexivity.
Defined.

(** X15: [clam_match_posix_flags] accepts every input made of ['-'] and one
    or more alphanumeric characters accepted by the allowed set, and returns
    the length of the whole input. *)
Theorem clam_match_posix_flags_accepts (fuel : nat) (input : cptr)
    (allowed : option cptr) (flags : list ascii) :
  valid_read_string input ->
  covers fuel input ->
  valid_read_string_or_null allowed ->
  covers_or_null fuel allowed ->
  cstring input = "-"%char :: flags ->
  flags <> [] ->
  Forall (fun c => is_alphanumeric c = true /\ accepted allowed c = true)
    flags ->
  clam_match_posix_flags fuel input allowed = Some (Z.of_nat (strlen input)).
Proof.
  intros Hv Hf Hva Hfa E Hne Hall.
  rewrite posix_flags_spec by assumption. rewrite E.
  destruct flags as [|c1 rest]; [congruence|].
  replace (forallb (is_flag allowed) (c1 :: rest)) with true; [reflexivity|].
  symmetry. apply forallb_forall. intros c Hin.
  rewrite Forall_forall in Hall. destruct (Hall c Hin) as [Ha Hb].
  unfold is_flag. now rewrite Ha, Hb.
Qed.

Lemma clam_match_posix_flags_accepts_witness :
  clam_match_posix_flags 6 "-abcd"%string None = Some 5.
Proof.
  apply (clam_match_posix_flags_accepts 6 "-abcd"%string None
           ["a"; "b"; "c"; "d"]%char);
    first [by_evaluation | reflexivity | discriminate
          | repeat constructor].
Defined.

(** X16: whatever [clam_match_posix_flags] matches starts with an option: if
    it returns a non-zero result then [clam_match_posix_option], on the same
    input and allowed set, returns 2. *)
Theorem clam_match_posix_flags_then_option (fuel : nat) (input : cptr)
    (allowed : option cptr) (r : Z) :
  valid_read_string input ->
  covers fuel input ->
  valid_read_string_or_null allowed ->
  covers_or_null fuel allowed ->
  clam_match_posix_flags fuel input allowed = Some r ->
  r <> 0 ->
  clam_match_posix_option fuel input allowed = Some 2.
Proof.
  intros Hv Hf Hva Hfa Hr Hnz.
  rewrite posix_flags_spec in Hr by assumption.
  rewrite posix_option_spec by assumption.
  destruct (cstring input) as [|c0 [|c1 l]]; try congruence.
  destruct (Ascii.eqb c0 "-"); cbn [andb] in *; [|congruence].
  cbn [forallb] in Hr. unfold is_flag at 1 in Hr.
  destruct (is_alphanumeric c1), (accepted allowed c1);
    cbn [andb] in *; congruence.
Qed.

Lemma clam_match_posix_flags_then_option_witness :
  clam_match_posix_option 7 "-abcd1"%string (Some "dacb1"%string) = Some 2.
Proof.
  apply (clam_match_posix_flags_then_option 7 "-abcd1"%string
           (Some "dacb1"%string) 6);
    first [by_evaluation | reflexivity | discriminate].
Defined.

(** X17: a lone dash is matched by none of the POSIX matchers: on the input
    "-" the option, flags, long-option and terminator matchers all return
    0, whatever the allowed set and the option literal. *)
Theorem posix_matchers_reject_lone_dash (fuel : nat) (input : cptr)
    (allowed : option cptr) (option : cptr) :
  valid_read_string_or_null allowed ->
  covers_or_null fuel allowed ->
  covers fuel input ->
  cstring input = ["-"%char] ->
  clam_match_posix_option fuel input allowed = Some 0
  /\ clam_match_posix_flags fuel input allowed = Some 0
  /\ clam_match_posix_long_option fuel input option = Some 0
  /\ clam_match_posix_terminate_options fuel input = Some 0.
Proof.
  intros Hva Hfa Hf E.
  assert (valid_read_string input) as Hv
    by (unfold valid_read_string, strlen; rewrite E; vm_compute; discriminate).
  rewrite posix_option_spec, posix_flags_spec, posix_long_option_spec,
    posix_terminate_options_spec by assumption.
  rewrite E. repeat apply conj; try reflexivity.
  cbn [Ascii.eqb Bool.eqb andb]. unfold strlen.
  destruct (cstring option); reflexivity.
Qed.

Lemma posix_matchers_reject_lone_dash_witness :
  clam_match_posix_option 3 "-"%string None = Some 0
  /\ clam_match_posix_flags 3 "-"%string None = Some 0
  /\ clam_match_posix_long_option 3 "-"%string "link"%string = Some 0
  /\ clam_match_posix_terminate_options 3 "-"%string = Some 0.
Proof.
  apply (posix_matchers_reject_lone_dash 3 "-"%string None "link"%string);
    first [by_evaluation | reflexivity].
Defined.

(** X18: the POSIX and the Windows conventions never both match: on every
    input either the four POSIX matchers all return 0 or the two Windows
    matchers both return 0. *)
Theorem posix_and_windows_exclusive (fuel : nat) (input : cptr)
    (allowed allowed_switches : option cptr) (option switch_s : cptr) :
  valid_read_string input ->
  covers fuel input ->
  valid_read_string_or_null allowed ->
  covers_or_null fuel allowed ->
  valid_read_string_or_null allowed_switches ->
  covers_or_null fuel allowed_switches ->
  (clam_match_posix_option fuel input allowed = Some 0
   /\ clam_match_posix_flags fuel input allowed = Some 0
   /\ clam_match_posix_long_option fuel input option = Some 0
   /\ clam_match_posix_terminate_options fuel input = Some 0)
  \/ (clam_match_windows_switch fuel input allowed_switches = Some 0
      /\ clam_match_windows_long_switch fuel input switch_s = Some 0).
Proof.
  intros Hv Hf Hva Hfa Hvs Hfs.
  rewrite posix_option_spec, posix_flags_spec, posix_long_option_spec,
    posix_terminate_options_spec, windows_switch_spec,
    windows_long_switch_spec by assumption.
  destruct (cstring input) as [|c0 l]; [left; repeat apply conj; reflexivity|].
  destruct (Ascii.eqb_spec c0 "/") as [->|Hne].
  - left. cbn [Ascii.eqb Bool.eqb andb].
    destruct l; repeat apply conj; try reflexivity;
      destruct (list_eq_dec _ _ _); first [discriminate|reflexivity].
  - right. cbn [andb]. destruct l; split; reflexivity.
Qed.

Lemma posix_and_windows_exclusive_witness :
  clam_match_posix_option 6 "/f"%string (Some "f"%string) = Some 0
  /\ clam_match_windows_switch 6 "-f"%string (Some "f"%string) = Some 0.
Proof.
  split.
  - destruct (posix_and_windows_exclusive 6 "/f"%string (Some "f"%string)
                (Some "f"%string) "f"%string "f"%string
                ltac:(by_evaluation) ltac:(by_evaluation) ltac:(by_evaluation)
                ltac:(by_evaluation) ltac:(by_evaluation) ltac:(by_evaluation))
      as [[H _]|[H _]]; [exact H|vm_compute in H; discriminate].
  - destruct (posix_and_windows_exclusive 6 "-f"%string (Some "f"%string)
                (Some "f"%string) "f"%string "f"%string
                ltac:(by_evaluation) ltac:(by_evaluation) ltac:(by_evaluation)
                ltac:(by_evaluation) ltac:(by_evaluation) ltac:(by_evaluation))
      as [[H _]|[H _]]; [vm_compute in H; discriminate|exact H].
Defined.

(** X19: a short option is never a double-dash form: when
    [clam_match_posix_option] returns 2, [clam_match_posix_terminate_options]
    returns 0 and so does [clam_match_posix_long_option] for every option
    literal that starts with ['-']. *)
Theorem clam_match_posix_option_not_double_dash (fuel : nat) (input : cptr)
    (allowed : option cptr) (option : cptr) (name : list ascii) :
  valid_read_string input ->
  covers fuel input ->
  valid_read_string_or_null allowed ->
  covers_or_null fuel allowed ->
  clam_match_posix_option fuel input allowed = Some 2 ->
  cstring option = "-"%char :: name ->
  clam_match_posix_terminate_options fuel input = Some 0
  /\ clam_match_posix_long_option fuel input option = Some 0.
Proof.
  intros Hv Hf Hva Hfa Ho En.
  rewrite posix_option_spec in Ho by assumption.
  rewrite posix_terminate_options_spec, posix_long_option_spec by assumption.
  rewrite En.
  destruct (cstring input) as [|c0 [|c1 l]]; try discriminate.
  destruct (Ascii.eqb_spec c0 "-") as [->|_]; cbn [andb] in Ho;
    [|discriminate].
  destruct (is_alphanumeric c1) eqn:Ea; cbn [andb] in Ho; [|discriminate].
  assert (c1 <> "-"%char) as Hc1 by (intros ->; discriminate).
  split.
  - destruct (list_eq_dec _ _ _) as [E|_]; [congruence|reflexivity].
  - cbn [andb is_prefix].
    destruct (Ascii.eqb_spec "-"%char c1) as [E|_];
      [symmetry in E; contradiction|reflexivity].
Qed.

Lemma clam_match_posix_option_not_double_dash_witness :
  clam_match_posix_terminate_options 4 "-h"%string = Some 0
  /\ clam_match_posix_long_option 4 "-h"%string "-help"%string = Some 0.
Proof.
  apply (clam_match_posix_option_not_double_dash 4 "-h"%string
           (Some "h"%string) "-help"%string
           ["h"; "e"; "l"; "p"]%char);
    first [by_evaluation | reflexivity].
Defined.

(** * The example driver *)

Import Example.

Lemma main_loop_step (fuel callee : nat) (argc : Z) (argv : list cptr)
    (a : Z) (out : list printf_call) :
  main_loop (S fuel) callee argc argv a out =
  if a <? argc then
    let arg := argv_at argv a in
    i <- clam_match_posix_option callee arg (Some "h"%string) ;;
    i <- (if truthy i then ret i
          else clam_match_posix_long_option callee arg "-help"%string) ;;
    if truthy i then ret (0, out ++ usage)
    else
      i <- clam_match_posix_long_option callee arg "link"%string ;;
      choice <-
        (if truthy i then ret (true, i)
         else
           i <- clam_match_posix_long_option callee arg "-link"%string ;;
           if truthy i then ret (true, i)
           else
             i <- clam_match_posix_option callee arg (Some "l"%string) ;;
             ret (false, i)) ;;
      let longopt : bool := fst choice in
      let i : Z := snd choice in
      if truthy i then
        if longopt && negb (truthy (clam_match_end (ptr_add arg i)))
           && negb (truthy (clam_match_char (ptr_add arg i) "="%char))
        then ret (1, out ++ [invalid_trailer (ptr_add arg i) i arg])
        else
          let eq := if longopt then clam_match_char (ptr_add arg i) "="%char
                    else 0 in
          let i := if longopt then uintptr (i + eq) else i in
          let arg := ptr_add arg i in
          if negb (truthy eq) && truthy (clam_match_end arg) then
            let a := a + 1 in
            let arg := argv_at argv a in
            if a =? argc then ret (1, out ++ [link_requires_argument])
            else main_loop fuel callee argc argv (a + 1)
                   (out ++ [linking_with arg])
          else main_loop fuel callee argc argv (a + 1)
                 (out ++ [linking_with arg])
      else
        i <- clam_match_windows_switch callee arg (Some "Ff"%string) ;;
        if truthy i then
          let a := a + 1 in
          let arg := argv_at argv a in
          main_loop fuel callee argc argv (a + 1)
            (out ++ [if a <? argc then doing_something_with arg
                     else using_a_default])
        else main_loop fuel callee argc argv (a + 1) out
  else ret (0, out).
Proof. reflexivity. Qed.

(** An argument within [argv] is one of its strings. *)
Lemma argv_at_in (argv : list cptr) (a : Z) :
  0 <= a < Z.of_nat (List.length argv) -> In (argv_at argv a) argv.
Proof. intros H. unfold argv_at. apply nth_In. lia. Qed.

(** The literals [main] passes as allowed sets are covered by any fuel
    above 2. *)
Lemma literal_sets_covered (callee : nat) :
  (2 < callee)%nat ->
  covers_or_null callee (Some "h"%string)
  /\ covers_or_null callee (Some "l"%string)
  /\ covers_or_null callee (Some "Ff"%string).
Proof.
  intros H. unfold covers_or_null, covers.
  change (strlen "h"%string) with 1%nat.
  change (strlen "l"%string) with 1%nat.
  change (strlen "Ff"%string) with 2%nat. lia.
Qed.

Lemma literal_sets_valid :
  valid_read_string_or_null (Some "h"%string)
  /\ valid_read_string_or_null (Some "l"%string)
  /\ valid_read_string_or_null (Some "Ff"%string).
Proof. repeat apply conj; vm_compute; discriminate. Qed.

(** Case analysis on the conditions of one iteration of [main_loop]. *)
Ltac main_cases :=
  repeat (cbn [bind ret fst snd];
          match goal with
          | |- context [if ?b then _ else _] => destruct b eqn:?
          end);
  cbn [bind ret fst snd].

(** From any index [main_loop] ends, with status 0 or 1, keeping the calls
    of [printf] made so far. *)
Lemma main_loop_ends (fuel callee : nat) (argv : list cptr) (a : Z)
    (out : list printf_call) :
  valid_argv argv ->
  Forall (covers callee) argv ->
  (2 < callee)%nat ->
  0 <= a ->
  (Z.to_nat (Z.of_nat (List.length argv) - a) < fuel)%nat ->
  exists code more,
    main_loop fuel callee (Z.of_nat (List.length argv)) argv a out
    = Some (code, out ++ more)
    /\ (code = 0 \/ code = 1).
Proof.
  intros Hv Hc Hcallee. revert a out.
  destruct (literal_sets_covered _ Hcallee) as (Hch & Hcl & Hcf).
  destruct literal_sets_valid as (Hvh & Hvl & Hvf).
  induction fuel as [|fuel IH]; intros a out Ha Hfuel; [lia|].
  rewrite main_loop_step.
  destruct (Z.ltb_spec a (Z.of_nat (List.length argv))) as [Hlt|Hge].
  2:{ exists 0, []. rewrite app_nil_r. auto. }
  cbn zeta.
  pose proof (argv_at_in argv a (conj Ha Hlt)) as Hin.
  destruct Hv as [Hv _]. rewrite Forall_forall in Hv, Hc.
  specialize (Hv _ Hin). specialize (Hc _ Hin).
  set (arg := argv_at argv a) in *.
  rewrite !posix_option_spec, !posix_long_option_spec,
    !windows_switch_spec by assumption.
  repeat match goal with
         | |- context [Some (match cstring arg with
                             | [] => _
                             | _ :: _ => _
                             end)] =>
             let r := fresh "r" in
             set (r := match cstring arg with [] => _ | _ :: _ => _ end);
             clearbody r
         end.
  assert (forall a' more',
            a < a' ->
            exists code more,
              main_loop fuel callee (Z.of_nat (List.length argv)) argv a'
                (out ++ more') = Some (code, out ++ more)
              /\ (code = 0 \/ code = 1)) as Hnext.
  { intros a' more' Ha'.
    destruct (IH a' (out ++ more') ltac:(lia) ltac:(lia))
      as (code & more & Hm & Hcode).
    exists code, (more' ++ more). now rewrite app_assoc. }
  main_cases;
    first [ solve [eexists _, _; split; [reflexivity|auto]]
          | solve [apply Hnext; lia]
          | solve [apply IH; lia] ].
Qed.

(** Conditions on a concrete [argv], settled by evaluation. *)
Ltac argv_by_evaluation :=
  repeat constructor; vm_compute; first [discriminate | reflexivity | lia].

(** X20: [main] always ends, and its exit status is 0 or 1. *)
Theorem main_exit_status (fuel : nat) (argv : list cptr) :
  valid_argv argv ->
  covers_argv fuel argv ->
  exists code out,
    main fuel argv = Some (code, out) /\ (code = 0 \/ code = 1).
Proof.
  intros Hv (H2 & Hlen & Hc). unfold main.
  destruct (main_loop_ends fuel fuel argv 0 [] Hv Hc H2 ltac:(lia)
              ltac:(lia)) as (code & more & Hm & Hcode).
  exists code, more. split; [exact Hm|exact Hcode].
Qed.

Lemma main_exit_status_witness :
  exists code out,
    main 9 ["example"; "--link"; "name"; "/f"]%string = Some (code, out)
    /\ (code = 0 \/ code = 1).
Proof.
  apply main_exit_status.
  - argv_by_evaluation.
  - argv_by_evaluation.
Defined.

Lemma main_loop_done (fuel callee : nat) (argc : Z) (argv : list cptr)
    (a : Z) (out : list printf_call) :
  argc <= a ->
  main_loop (S fuel) callee argc argv a out = Some (0, out).
Proof.
  intros H. rewrite main_loop_step.
  destruct (Z.ltb_spec a argc); [lia|reflexivity].
Qed.

Lemma plain_cstring (arg : cptr) :
  plain arg ->
  match cstring arg with
  | c0 :: _ => c0 <> "-"%char /\ c0 <> "/"%char
  | [] => True
  end.
Proof.
  intros [H1 H2]. rewrite index_0, deref_hd in H1, H2.
  destruct (cstring arg); [exact I|]. split; assumption.
Qed.

(** One iteration on a plain argument prints nothing and moves on. *)
Lemma main_loop_plain (fuel callee : nat) (argc : Z) (argv : list cptr)
    (a : Z) (out : list printf_call) :
  (2 < callee)%nat ->
  a < argc ->
  valid_read_string (argv_at argv a) ->
  covers callee (argv_at argv a) ->
  plain (argv_at argv a) ->
  main_loop (S fuel) callee argc argv a out
  = main_loop fuel callee argc argv (a + 1) out.
Proof.
  intros Hcallee Hlt Hv Hc Hp.
  destruct (literal_sets_covered _ Hcallee) as (Hch & Hcl & Hcf).
  destruct literal_sets_valid as (Hvh & Hvl & Hvf).
  rewrite main_loop_step. rewrite (proj2 (Z.ltb_lt _ _) Hlt). cbn zeta.
  rewrite !posix_option_spec, !posix_long_option_spec,
    !windows_switch_spec by assumption.
  apply plain_cstring in Hp.
  destruct (cstring (argv_at argv a)) as [|c0 l]; [reflexivity|].
  destruct Hp as [Hd Hs].
  destruct (Ascii.eqb_spec c0 "-"); [contradiction|].
  destruct (Ascii.eqb_spec c0 "/"); [contradiction|].
  destruct l; reflexivity.
Qed.

Lemma argv_at_app (pre : list cptr) (arg : cptr) (post : list cptr) :
  argv_at (pre ++ arg :: post) (Z.of_nat (List.length pre)) = arg.
Proof.
  unfold argv_at. rewrite Nat2Z.id. rewrite app_nth2 by lia.
  now rewrite Nat.sub_diag.
Qed.

(** The loop passes over plain arguments without printing. *)
Lemma main_loop_skips_plain (callee : nat) (pre : list cptr) :
  forall (fuel : nat) (before rest : list cptr) (out : list printf_call),
  (2 < callee)%nat ->
  Forall valid_read_string pre ->
  Forall (covers callee) pre ->
  Forall plain pre ->
  main_loop (List.length pre + fuel) callee
    (Z.of_nat (List.length (before ++ pre ++ rest))) (before ++ pre ++ rest)
    (Z.of_nat (List.length before)) out
  = main_loop fuel callee
      (Z.of_nat (List.length (before ++ pre ++ rest))) (before ++ pre ++ rest)
      (Z.of_nat (List.length (before ++ pre))) out.
Proof.
  induction pre as [|x pre IH]; intros fuel before rest out Hcallee Hv Hc Hp.
  - cbn [List.length Nat.add app]. now rewrite app_nil_r.
  - inversion Hv as [|? ? Hvx Hv']; subst.
    inversion Hc as [|? ? Hcx Hc']; subst.
    inversion Hp as [|? ? Hpx Hp']; subst.
    cbn [List.length Nat.add]. cbn [app].
    rewrite main_loop_plain;
      try rewrite argv_at_app; try assumption;
      [|rewrite !length_app; cbn [List.length]; lia].
    replace (before ++ x :: pre ++ rest)
      with ((before ++ [x]) ++ pre ++ rest)
      by (now rewrite <- app_assoc).
    replace (Z.of_nat (List.length before) + 1)
      with (Z.of_nat (List.length (before ++ [x])))
      by (rewrite length_app; cbn [List.length]; lia).
    rewrite IH by assumption.
    now rewrite <- !app_assoc.
Qed.

(** After plain arguments [main] is at the first argument that is not. *)
Lemma main_after_plain (fuel : nat) (pre tail : list cptr) :
  valid_argv (pre ++ tail) ->
  covers_argv fuel (pre ++ tail) ->
  Forall plain pre ->
  exists fuel',
    (List.length tail < fuel')%nat
    /\ main fuel (pre ++ tail)
       = main_loop fuel' fuel (Z.of_nat (List.length (pre ++ tail)))
           (pre ++ tail) (Z.of_nat (List.length pre)) [].
Proof.
  intros [Hv _] (H2 & Hlen & Hc) Hp.
  apply Forall_app in Hv as [Hv _]. apply Forall_app in Hc as [Hc _].
  rewrite length_app in Hlen.
  exists (fuel - List.length pre)%nat. split; [lia|]. unfold main.
  replace fuel with (List.length pre + (fuel - List.length pre))%nat at 1
    by lia.
  exact (main_loop_skips_plain fuel pre _ [] tail [] H2 Hv Hc Hp).
Qed.

(** The conditions on the argument at hand, from those on [argv]. *)
Lemma argv_conditions (fuel : nat) (pre : list cptr) (arg : cptr)
    (post : list cptr) :
  valid_argv (pre ++ arg :: post) ->
  covers_argv fuel (pre ++ arg :: post) ->
  valid_read_string arg /\ covers fuel arg
  /\ covers_or_null fuel (Some "h"%string)
  /\ covers_or_null fuel (Some "l"%string)
  /\ covers_or_null fuel (Some "Ff"%string).
Proof.
  intros [Hv _] (H2 & _ & Hc).
  apply Forall_app in Hv as [_ Hv]. apply Forall_app in Hc as [_ Hc].
  inversion Hv; subst. inversion Hc; subst.
  split; [assumption|]. split; [assumption|].
  now apply literal_sets_covered.
Qed.

(** One iteration of [main_loop] at the argument that follows [pre], with
    the matchers replaced by what they return. *)
Ltac main_iteration :=
  rewrite main_loop_step;
  match goal with
  | |- context [?a <? ?argc] =>
      replace (a <? argc) with true
        by (symmetry; apply Z.ltb_lt; rewrite ?length_app;
            cbn [List.length]; lia)
  end;
  cbn zeta; rewrite ?argv_at_app;
  rewrite ?posix_option_spec, ?posix_long_option_spec,
    ?windows_switch_spec
    by first [assumption | vm_compute; discriminate].

(** X21: the first argument that is not plain decides for help: when it
    starts with "-h" or with "--help", whatever follows in that argument or
    after it, [main] prints the usage and returns 0.  This holds for
    [argv[0]] as for any other argument. *)
Theorem main_help (fuel : nat) (pre : list cptr) (arg : cptr)
    (post : list cptr) (rest : list ascii) :
  valid_argv (pre ++ arg :: post) ->
  covers_argv fuel (pre ++ arg :: post) ->
  Forall plain pre ->
  cstring arg = ["-"; "h"]%char ++ rest
  \/ cstring arg = ["-"; "-"; "h"; "e"; "l"; "p"]%char ++ rest ->
  main fuel (pre ++ arg :: post) = Some (0, usage).
Proof.
  intros Hv Hc Hp Hshape.
  destruct (main_after_plain fuel pre (arg :: post) Hv Hc Hp)
    as (fuel' & Hfuel' & ->).
  destruct (argv_conditions fuel pre arg post Hv Hc)
    as (Hva & Hca & Hch & Hcl & Hcf).
  destruct fuel' as [|fuel']; [cbn [List.length] in Hfuel'; lia|].
  main_iteration.
  destruct Hshape as [-> | ->]; reflexivity.
Qed.

Lemma main_help_witness :
  main 9 ["example"; "--helpme"; "--link"]%string = Some (0, usage).
Proof.
  apply (main_help 9 ["example"%string] "--helpme"%string ["--link"%string]
           ["m"; "e"]%char).
  - argv_by_evaluation.
  - argv_by_evaluation.
  - argv_by_evaluation.
  - right. reflexivity.
Defined.

Lemma argv_at_app_next (pre : list cptr) (arg next : cptr)
    (post : list cptr) :
  argv_at (pre ++ arg :: next :: post) (Z.of_nat (List.length pre) + 1) = next.
Proof.
  replace (pre ++ arg :: next :: post) with ((pre ++ [arg]) ++ next :: post)
    by (now rewrite <- app_assoc).
  replace (Z.of_nat (List.length pre) + 1)
    with (Z.of_nat (List.length (pre ++ [arg])))
    by (rewrite length_app; cbn [List.length]; lia).
  apply argv_at_app.
Qed.

(** The end of [main] once the index has passed the last argument. *)
Ltac main_done :=
  match goal with
  | |- main_loop ?f _ _ _ _ _ = _ =>
      destruct f; [exfalso; cbn [List.length] in *; lia|]
  end;
  rewrite main_loop_done
    by (rewrite ?length_app; cbn [List.length]; lia);
  reflexivity.

(** X22: a value attached to the link option is linked with: as last
    argument after plain ones, "--link=name" and "-link=name" for every
    name, the empty one too, and "-lname" for every non-empty name that
    does not start with "ink", make [main] print "linking with" that name
    and return 0. *)
Theorem main_link_attached (fuel : nat) (pre : list cptr) (arg name : cptr) :
  valid_argv (pre ++ [arg]) ->
  covers_argv fuel (pre ++ [arg]) ->
  Forall plain pre ->
  arg = ("--link=" ++ name)%string
  \/ arg = ("-link=" ++ name)%string
  \/ (arg = ("-l" ++ name)%string
      /\ cstring name <> []
      /\ is_prefix ["i"; "n"; "k"]%char (cstring name) = false) ->
  main fuel (pre ++ [arg]) = Some (0, [linking_with name]).
Proof.
  intros Hv Hc Hp Hshape.
  destruct (main_after_plain fuel pre _ Hv Hc Hp)
    as (fuel' & Hfuel' & ->).
  destruct (argv_conditions fuel pre _ [] Hv Hc)
    as (Hva & Hca & Hch & Hcl & Hcf).
  destruct fuel' as [|fuel']; try (cbn [List.length] in Hfuel'; lia).
  main_iteration.
  destruct Hshape as [-> | [-> | (-> & Hne & Hink)]].
  - simpl. main_done.
  - simpl. main_done.
  - change (cstring ("-l" ++ name)%string)
      with ("-"%char :: "l"%char :: cstring name).
    change (cstring "link"%string) with ["l"; "i"; "n"; "k"]%char.
    assert (is_prefix ["l"; "i"; "n"; "k"]%char ("l"%char :: cstring name)
            = false) as Hlink
      by (change (is_prefix ["l"; "i"; "n"; "k"]%char
                    ("l"%char :: cstring name))
            with (Ascii.eqb "l" "l"
                  && is_prefix ["i"; "n"; "k"]%char (cstring name));
          now rewrite Hink).
    lazy beta match. rewrite Hlink.
    destruct (cstring name) as [|c l] eqn:E; [congruence|].
    apply deref_cstring in E as (Hd & Hnul & _).
    simpl. change (ptr_add (String "-" (String "l" name)) 2) with name.
    rewrite match_end_truthy, Hd.
    destruct (Ascii.eqb_spec c NUL); [contradiction|].
    main_done.
Qed.

Lemma main_link_attached_witness :
  main 12 ["example"; "--link=name"]%string
  = Some (0, [linking_with "name"%string]).
Proof.
  apply (main_link_attached 12 ["example"%string] "--link=name"%string
           "name"%string).
  - argv_by_evaluation.
  - argv_by_evaluation.
  - argv_by_evaluation.
  - left. reflexivity.
Defined.

(** X23: a link option that stands alone takes the next argument as its
    value, whatever that argument is: after plain arguments, "--link",
    "-link" or "-l" followed by a last argument make [main] print
    "linking with" that argument and return 0. *)
Theorem main_link_separate (fuel : nat) (pre : list cptr)
    (opt name : cptr) :
  valid_argv (pre ++ [opt; name]) ->
  covers_argv fuel (pre ++ [opt; name]) ->
  Forall plain pre ->
  opt = "--link"%string \/ opt = "-link"%string \/ opt = "-l"%string ->
  main fuel (pre ++ [opt; name]) = Some (0, [linking_with name]).
Proof.
  intros Hv Hc Hp Hshape.
  destruct (main_after_plain fuel pre _ Hv Hc Hp)
    as (fuel' & Hfuel' & ->).
  destruct (argv_conditions fuel pre _ _ Hv Hc)
    as (Hva & Hca & Hch & Hcl & Hcf).
  destruct fuel' as [|fuel']; try (cbn [List.length] in Hfuel'; lia).
  main_iteration.
  assert ((Z.of_nat (List.length pre) + 1 =?
           Z.of_nat (List.length (pre ++ [opt; name]))) = false) as Hnot
    by (apply Z.eqb_neq; rewrite length_app; cbn [List.length]; lia).
  destruct Hshape as [-> | [-> | ->]];
    simpl; rewrite Hnot, argv_at_app_next; main_done.
Qed.

Lemma main_link_separate_witness :
  main 9 ["example"; "-l"; "-h"]%string
  = Some (0, [linking_with "-h"%string]).
Proof.
  apply (main_link_separate 9 ["example"%string] "-l"%string "-h"%string).
  - argv_by_evaluation.
  - argv_by_evaluation.
  - argv_by_evaluation.
  - right. right. reflexivity.
Defined.

(** X24: a link option without a value is an error: when "--link", "-link"
    or "-l" is the last argument, after plain ones, [main] prints "link
    requires an argument" and returns 1. *)
Theorem main_link_requires_argument (fuel : nat) (pre : list cptr)
    (opt : cptr) :
  valid_argv (pre ++ [opt]) ->
  covers_argv fuel (pre ++ [opt]) ->
  Forall plain pre ->
  opt = "--link"%string \/ opt = "-link"%string \/ opt = "-l"%string ->
  main fuel (pre ++ [opt]) = Some (1, [link_requires_argument]).
Proof.
  intros Hv Hc Hp Hshape.
  destruct (main_after_plain fuel pre _ Hv Hc Hp)
    as (fuel' & Hfuel' & ->).
  destruct (argv_conditions fuel pre _ _ Hv Hc)
    as (Hva & Hca & Hch & Hcl & Hcf).
  destruct fuel' as [|fuel']; try (cbn [List.length] in Hfuel'; lia).
  main_iteration.
  assert ((Z.of_nat (List.length pre) + 1 =?
           Z.of_nat (List.length (pre ++ [opt]))) = true) as Hlast
    by (apply Z.eqb_eq; rewrite length_app; cbn [List.length]; lia).
  destruct Hshape as [-> | [-> | ->]]; simpl; rewrite Hlast; reflexivity.
Qed.

Lemma main_link_requires_argument_witness :
  main 9 ["example"; "--link"]%string = Some (1, [link_requires_argument]).
Proof.
  apply (main_link_requires_argument 9 ["example"%string] "--link"%string).
  - argv_by_evaluation.
  - argv_by_evaluation.
  - argv_by_evaluation.
  - left. reflexivity.
Defined.

(** Pointer arithmetic on a buffer whose first characters are known. *)
Ltac reduce_ptr_add :=
  cbv [ptr_add Z.to_nat Pos.to_nat Pos.iter_op Nat.add ptr_add_nat].

(** X25: a long link option must end or continue with ['=']: when the first
    argument that is not plain is "--link" or "-link" followed by a
    character other than ['='], as in "-linker", [main] reports the invalid
    trailer, with the offset at which it starts, and returns 1, whatever
    comes after that argument. *)
Theorem main_invalid_trailer (fuel : nat) (pre : list cptr) (arg : cptr)
    (post : list cptr) (c : ascii) (trailer : cptr) (i : Z) :
  valid_argv (pre ++ arg :: post) ->
  covers_argv fuel (pre ++ arg :: post) ->
  Forall plain pre ->
  c <> "="%char ->
  c <> NUL ->
  (arg = ("--link" ++ String c trailer)%string /\ i = 6)
  \/ (arg = ("-link" ++ String c trailer)%string /\ i = 5) ->
  main fuel (pre ++ arg :: post)
  = Some (1, [invalid_trailer (String c trailer) i arg]).
Proof.
  intros Hv Hc Hp Heq Hnul Hshape.
  destruct (main_after_plain fuel pre _ Hv Hc Hp)
    as (fuel' & Hfuel' & ->).
  destruct (argv_conditions fuel pre _ _ Hv Hc)
    as (Hva & Hca & Hch & Hcl & Hcf).
  destruct fuel' as [|fuel']; [cbn [List.length] in Hfuel'; lia|].
  main_iteration.
  assert (truthy (clam_match_end (String c trailer)) = false) as Hend
    by (rewrite match_end_truthy; cbn [deref];
        destruct (Ascii.eqb_spec c NUL); [contradiction|reflexivity]).
  assert (truthy (clam_match_char (String c trailer) "=") = false) as Hchar
    by (unfold clam_match_char; rewrite truthy_c_bool, index_0; cbn [deref];
        destruct (Ascii.eqb_spec c "="); [contradiction|reflexivity]).
  destruct Hshape as [[-> ->] | [-> ->]];
    simpl; reduce_ptr_add; rewrite Hend, Hchar; reflexivity.
Qed.

Lemma main_invalid_trailer_witness :
  main 9 ["example"; "-linker"; "-h"]%string
  = Some (1, [invalid_trailer "er"%string 5 "-linker"%string]).
Proof.
  apply (main_invalid_trailer 9 ["example"%string] "-linker"%string
           ["-h"%string] "e"%char "r"%string 5).
  - argv_by_evaluation.
  - argv_by_evaluation.
  - argv_by_evaluation.
  - discriminate.
  - discriminate.
  - right. split; reflexivity.
Defined.

(** X26: the [/f] switch takes the next argument, if there is one: after
    plain arguments, an argument that starts with "/f" or "/F", whatever
    follows in it, makes [main] print "doing something with with" the
    next and last argument, or "using a default with /f" when it is the
    last argument itself; [main] returns 0. *)
Theorem main_windows_switch (fuel : nat) (pre : list cptr) (c : ascii)
    (trailer : cptr) (post : list cptr) :
  valid_argv (pre ++ String "/" (String c trailer) :: post) ->
  covers_argv fuel (pre ++ String "/" (String c trailer) :: post) ->
  Forall plain pre ->
  c = "f"%char \/ c = "F"%char ->
  (List.length post <= 1)%nat ->
  main fuel (pre ++ String "/" (String c trailer) :: post)
  = Some (0, [match post with
              | next :: _ => doing_something_with next
              | [] => using_a_default
              end]).
Proof.
  intros Hv Hc Hp Hshape Hpost.
  destruct (main_after_plain fuel pre _ Hv Hc Hp)
    as (fuel' & Hfuel' & ->).
  destruct (argv_conditions fuel pre _ _ Hv Hc)
    as (Hva & Hca & Hch & Hcl & Hcf).
  destruct fuel' as [|fuel']; [cbn [List.length] in Hfuel'; lia|].
  main_iteration.
  destruct post as [|next [|more post]];
    [| |cbn [List.length] in Hpost; lia].
  - destruct Hshape as [-> | ->]; simpl;
      match goal with
      | |- context [?x <? ?y] => destruct (Z.ltb_spec x y) as [Hcmp|Hcmp]
      end;
      first [ rewrite length_app in Hcmp; cbn [List.length] in Hcmp; lia
            | main_done ].
  - destruct Hshape as [-> | ->]; simpl;
      match goal with
      | |- context [?x <? ?y] => destruct (Z.ltb_spec x y) as [Hcmp|Hcmp]
      end;
      first [ rewrite length_app in Hcmp; cbn [List.length] in Hcmp; lia
            | rewrite argv_at_app_next; main_done ].
Qed.

Lemma main_windows_switch_witness :
  main 9 ["example"; "/F"; "x"]%string
  = Some (0, [doing_something_with "x"%string]).
Proof.
  apply (main_windows_switch 9 ["example"%string] "F"%char ""%string
           ["x"%string]).
  - argv_by_evaluation.
  - argv_by_evaluation.
  - argv_by_evaluation.
  - right. reflexivity.
  - simpl. lia.
Defined.

(** X27: arguments that start with neither ['-'] nor ['/'] are passed
    over: when every argument is plain, [main] prints nothing and returns
    0. *)
Theorem main_plain_arguments (fuel : nat) (argv : list cptr) :
  valid_argv argv ->
  covers_argv fuel argv ->
  Forall plain argv ->
  main fuel argv = Some (0, []).
Proof.
  intros Hv Hc Hp.
  rewrite <- (app_nil_r argv) in Hv, Hc |- *.
  destruct (main_after_plain fuel argv [] Hv Hc Hp)
    as (fuel' & Hfuel' & ->).
  destruct fuel' as [|fuel']; [cbn [List.length] in Hfuel'; lia|].
  apply main_loop_done. rewrite !app_nil_r. lia.
Qed.

Lemma main_plain_arguments_witness :
  main 9 ["example"; "file.c"; "other"]%string = Some (0, []).
Proof.
  apply main_plain_arguments.
  - argv_by_evaluation.
  - argv_by_evaluation.
  - argv_by_evaluation.
Defined.
